(** * signfy-meet: GalleryLayout and UserMediaProvider

    A shallow embedding of the two presentation components of the
    repository and the properties of their specification.

    - [UserMedia] embeds [src/context/UserMedia.tsx]: the React state of
      [UserMediaProvider], the browser objects it touches (media tracks
      with identity, the shared constraints object, the analyser), the
      calls it makes into the spaces SDK, and each callback of the context
      value as a computation in a state and exception monad that also
      records the calls it makes.
    - [Gallery] embeds the [GalleryLayout] component: React children, the
      memoised best fit and the prop injection.

    JavaScript numbers are idealised as rationals ([Q]).

    A callback of the context value is a closure: it reads the React state
    of the render that created it, and writes through the setters. The
    callbacks that read state therefore take that render as an argument,
    and a sequence of calls may go through the callbacks of any earlier
    render. A call is run from its start to the settlement of its promise
    before the next call starts; what the asynchronous callbacks do after
    an [await] reads no React state.

    The SDK ([@mux/spaces-web]) is not part of the repository. Two facts
    of its interface decide what the provider's calls into it do: its
    [getUserMedia] resolves with an array of [LocalTrack]s, not with a
    [MediaStream], and its [LocalTrack] constructor takes the browser
    track as its second argument, so that the handle made by
    [new LocalTrack(track, "video", "input")] has the string ["video"]
    for its [track] property. *)

From Stdlib Require Import ZArith QArith Lqa Lia String List.
From stdpp Require Import base option list strings gmap.

Open Scope string_scope.
Open Scope list_scope.

(** ** Device management: [UserMediaProvider] *)

Module UserMedia.

(** *** Browser objects *)

(** [MediaStreamTrack.kind]. *)
Inductive TrackKind := audio | video.

(** The string a kind reads as. *)
Definition kind_name (k : TrackKind) : string :=
  match k with
  | audio => "audio"
  | video => "video"
  end.

(** [MediaStreamTrack.readyState]. *)
Inductive ReadyState := live | ended.

(** A browser media track: a mutable object. [enabled] is the flag the
    provider toggles, [readyState] becomes [ended] when [stop()] runs. *)
Record MediaStreamTrack := mkTrack {
  kind : TrackKind;
  enabled : bool;
  readyState : ReadyState
}.

(** Tracks are objects with identity: the provider holds references into the
    heap of tracks the browser has created so far. *)
Abbreviation TrackRef := nat.

(** A [MediaStream] is its list of tracks, in [getTracks()] order. *)
Definition MediaStream := list TrackRef.

(** [MediaDeviceInfo.kind]. *)
Inductive MediaDeviceKind := audioinput | audiooutput | videoinput.

Record MediaDeviceInfo := mkDevice {
  deviceId : string;
  device_kind : MediaDeviceKind;
  label : string
}.

(** Values that are thrown or that reject a promise. *)
Inductive JsError :=
  | DOMException (name : string)
  | TypeError
  | Error (message : string).

(** One member of a [CreateLocalMediaOptions] / [MediaStreamConstraints]
    object: [false], the default object, or an object naming a device.
    The [constraints: defaultAudioConstraints] member comes from
    [shared/defaults] and is not tracked. *)
Inductive MediaOption := Off | Default | Device (id : string).

Record CreateLocalMediaOptions := mkOptions {
  opt_video : MediaOption;
  opt_audio : MediaOption
}.

Definition defaultCameraOption_video : MediaOption := Default.
Definition defaultMicrophoneOption_audio : MediaOption := Default.
Definition noCameraOption_video : MediaOption := Off.
Definition noMicrophoneOption_audio : MediaOption := Off.

(** The initial value of the module-level object
    [defaultMicrophoneCameraOptions]. *)
Definition defaultMicrophoneCameraOptions_init : CreateLocalMediaOptions :=
  {| opt_video := defaultCameraOption_video;
     opt_audio := defaultMicrophoneOption_audio |}.

(** *** The SDK's local track *)

(** The values the provider passes to the SDK's constructor: a browser
    track, [undefined] (index 0 of an empty array), or a string. *)
Inductive JsValue :=
  | JsUndefined
  | JsString (s : string)
  | JsTrack (r : TrackRef).

(** The SDK's [LocalTrack], as [new LocalTrack(a, b, c)] builds it. The
    constructor takes the browser track second: the [track] property of
    the handle is [b]. The other two arguments are kept as they were
    passed; they tell the handles apart, which are objects with
    identity. *)
Record LocalTrack := mkLocalTrack {
  lt_first : JsValue;
  track : JsValue;
  lt_third : JsValue
}.

Definition new_LocalTrack (a b c : JsValue) : LocalTrack :=
  {| lt_first := a; track := b; lt_third := c |}.

(** The node made by [audioCtx.createAnalyser()] and fed from a track.
    [frequencyBinCount] is half the [fftSize], which is a power of two
    from 32 on: it is never zero. A new analyser has [fftSize] 2048, hence
    1024 frequency bins. *)
Record AnalyserNode := mkAnalyser {
  an_source : TrackRef;
  frequencyBinCount : positive
}.

Definition default_frequencyBinCount : positive := 1024.

(** *** State *)

(** The [useState] slots of the provider and the two device ids it writes
    into [UserContext]. *)
Record State := mkState {
  microphoneDevices : list MediaDeviceInfo;
  activeMicrophone : option LocalTrack;
  cameraDevices : list MediaDeviceInfo;
  activeCamera : option LocalTrack;
  localAudioAnalyser : option AnalyserNode;
  userMediaError : option string;
  cameraDeviceId : option string;
  microphoneDeviceId : option string
}.

(** What the callbacks do to the outside, in the order they do it.
    [CallGetUserMedia] is the browser's
    [navigator.mediaDevices.getUserMedia], [CallSdkGetUserMedia] the
    function of that name imported from the SDK. *)
Inductive Event :=
  | CallGetUserMedia (options : CreateLocalMediaOptions)
  | CallSdkGetUserMedia (options : CreateLocalMediaOptions)
  | CallEnumerateDevices
  | CallTrackStop (r : TrackRef)
  | CallLocalTrackStop (t : LocalTrack)
  | SetActiveCamera (c : option LocalTrack)
  | SetActiveMicrophone (m : option LocalTrack)
  | SetMicrophoneDevices (ds : list MediaDeviceInfo)
  | SetCameraDevices (ds : list MediaDeviceInfo)
  | SetLocalAudioAnalyser (a : AnalyserNode)
  | SetUserMediaError (msg : string)
  | SetCameraDeviceId (id : string)
  | SetMicrophoneDeviceId (id : string)
  | ConsoleError (e : JsError).

(** The world outside React: the tracks created so far, whether
    [navigator.mediaDevices.getUserMedia] exists, the shared module-level
    options object and the trace of calls. *)
Record World := mkWorld {
  heap : list MediaStreamTrack;
  mediaDevicesSupported : bool;
  defaultMicrophoneCameraOptions : CreateLocalMediaOptions;
  trace : list Event
}.

(** The provider at one moment: the React state of its latest render, the
    world, and the states of the renders before, the latest first. Every
    call of a setter makes a render; React may merge some of them, so the
    renders it really makes are among these. *)
Record Sys := mkSys { st : State; world : World; renders : list State }.

Definition initialState : State :=
  {| microphoneDevices := []; activeMicrophone := None;
     cameraDevices := []; activeCamera := None;
     localAudioAnalyser := None; userMediaError := None;
     cameraDeviceId := None; microphoneDeviceId := None |}.

Definition initialWorld (supported : bool) : World :=
  {| heap := []; mediaDevicesSupported := supported;
     defaultMicrophoneCameraOptions := defaultMicrophoneCameraOptions_init;
     trace := [] |}.

Definition initialSys (supported : bool) : Sys :=
  {| st := initialState; world := initialWorld supported; renders := [] |}.

(** The state a callback closes over: that of the latest render for age 0,
    of the render before for age 1, and so on; beyond the first render,
    the latest. *)
Definition render_at (age : nat) (s : Sys) : State :=
  default (st s) ((st s :: renders s) !! age).

(** *** The monad of callbacks: state and exceptions *)

Inductive Result (A : Type) :=
  | Returned (a : A)
  | Thrown (e : JsError).
Arguments Returned {A} a.
Arguments Thrown {A} e.

Definition M (A : Type) : Type := Sys -> Result A * Sys.

Definition ret {A} (a : A) : M A := fun s => (Returned a, s).

Definition bind {A B} (m : M A) (k : A -> M B) : M B :=
  fun s => match m s with
           | (Returned a, s') => k a s'
           | (Thrown e, s') => (Thrown e, s')
           end.

Definition throw {A} (e : JsError) : M A := fun s => (Thrown e, s).

(** [try { body } catch (error) { handler }], and [promise.catch(handler)]. *)
Definition try_catch {A} (body : M A) (handler : JsError -> M A) : M A :=
  fun s => match body s with
           | (Returned a, s') => (Returned a, s')
           | (Thrown e, s') => handler e s'
           end.

Notation "x <- c1 ;; c2" := (bind c1 (fun x => c2))
  (at level 100, c1 at next level, right associativity).
Notation "c1 ;; c2" := (bind c1 (fun _ => c2))
  (at level 100, right associativity).

(** Appending to the trace. *)
Definition record (es : list Event) (s : Sys) : Sys :=
  {| st := st s;
     world := {| heap := heap (world s);
                 mediaDevicesSupported := mediaDevicesSupported (world s);
                 defaultMicrophoneCameraOptions :=
                   defaultMicrophoneCameraOptions (world s);
                 trace := trace (world s) ++ es |};
     renders := renders s |}.

Definition emit (e : Event) : M unit :=
  fun s => (Returned tt, record [e] s).

(** A setter call: the state is replaced and the one before joins the
    earlier renders. *)
Definition update_state (f : State -> State) (s : Sys) : Sys :=
  {| st := f (st s); world := world s; renders := st s :: renders s |}.

Definition modify_state (f : State -> State) : M unit :=
  fun s => (Returned tt, update_state f s).

Definition update_heap (f : list MediaStreamTrack -> list MediaStreamTrack)
    (s : Sys) : Sys :=
  {| st := st s;
     world := {| heap := f (heap (world s));
                 mediaDevicesSupported := mediaDevicesSupported (world s);
                 defaultMicrophoneCameraOptions :=
                   defaultMicrophoneCameraOptions (world s);
                 trace := trace (world s) |};
     renders := renders s |}.

Definition modify_heap (f : list MediaStreamTrack -> list MediaStreamTrack) : M unit :=
  fun s => (Returned tt, update_heap f s).

Definition update_options (f : CreateLocalMediaOptions -> CreateLocalMediaOptions)
    (s : Sys) : Sys :=
  {| st := st s;
     world := {| heap := heap (world s);
                 mediaDevicesSupported := mediaDevicesSupported (world s);
                 defaultMicrophoneCameraOptions :=
                   f (defaultMicrophoneCameraOptions (world s));
                 trace := trace (world s) |};
     renders := renders s |}.

Definition modify_options (f : CreateLocalMediaOptions -> CreateLocalMediaOptions) : M unit :=
  fun s => (Returned tt, update_options f s).

Definition read {A} (f : Sys -> A) : M A := fun s => (Returned (f s), s).

(** [array.forEach(f)]. *)
Fixpoint forEach {A} (l : list A) (f : A -> M unit) : M unit :=
  match l with
  | [] => ret tt
  | x :: l' => f x ;; forEach l' f
  end.

(** *** State setters *)

(** Each [useState] setter replaces one slot and leaves the others. *)

Definition with_microphoneDevices (ds : list MediaDeviceInfo) (s : State) : State :=
  {| microphoneDevices := ds; activeMicrophone := activeMicrophone s;
     cameraDevices := cameraDevices s; activeCamera := activeCamera s;
     localAudioAnalyser := localAudioAnalyser s; userMediaError := userMediaError s;
     cameraDeviceId := cameraDeviceId s; microphoneDeviceId := microphoneDeviceId s |}.

Definition with_activeMicrophone (m : option LocalTrack) (s : State) : State :=
  {| microphoneDevices := microphoneDevices s; activeMicrophone := m;
     cameraDevices := cameraDevices s; activeCamera := activeCamera s;
     localAudioAnalyser := localAudioAnalyser s; userMediaError := userMediaError s;
     cameraDeviceId := cameraDeviceId s; microphoneDeviceId := microphoneDeviceId s |}.

Definition with_cameraDevices (ds : list MediaDeviceInfo) (s : State) : State :=
  {| microphoneDevices := microphoneDevices s; activeMicrophone := activeMicrophone s;
     cameraDevices := ds; activeCamera := activeCamera s;
     localAudioAnalyser := localAudioAnalyser s; userMediaError := userMediaError s;
     cameraDeviceId := cameraDeviceId s; microphoneDeviceId := microphoneDeviceId s |}.

Definition with_activeCamera (c : option LocalTrack) (s : State) : State :=
  {| microphoneDevices := microphoneDevices s; activeMicrophone := activeMicrophone s;
     cameraDevices := cameraDevices s; activeCamera := c;
     localAudioAnalyser := localAudioAnalyser s; userMediaError := userMediaError s;
     cameraDeviceId := cameraDeviceId s; microphoneDeviceId := microphoneDeviceId s |}.

Definition with_localAudioAnalyser (a : AnalyserNode) (s : State) : State :=
  {| microphoneDevices := microphoneDevices s; activeMicrophone := activeMicrophone s;
     cameraDevices := cameraDevices s; activeCamera := activeCamera s;
     localAudioAnalyser := Some a; userMediaError := userMediaError s;
     cameraDeviceId := cameraDeviceId s; microphoneDeviceId := microphoneDeviceId s |}.

Definition with_userMediaError (msg : string) (s : State) : State :=
  {| microphoneDevices := microphoneDevices s; activeMicrophone := activeMicrophone s;
     cameraDevices := cameraDevices s; activeCamera := activeCamera s;
     localAudioAnalyser := localAudioAnalyser s; userMediaError := Some msg;
     cameraDeviceId := cameraDeviceId s; microphoneDeviceId := microphoneDeviceId s |}.

Definition with_cameraDeviceId (id : string) (s : State) : State :=
  {| microphoneDevices := microphoneDevices s; activeMicrophone := activeMicrophone s;
     cameraDevices := cameraDevices s; activeCamera := activeCamera s;
     localAudioAnalyser := localAudioAnalyser s; userMediaError := userMediaError s;
     cameraDeviceId := Some id; microphoneDeviceId := microphoneDeviceId s |}.

Definition with_microphoneDeviceId (id : string) (s : State) : State :=
  {| microphoneDevices := microphoneDevices s; activeMicrophone := activeMicrophone s;
     cameraDevices := cameraDevices s; activeCamera := activeCamera s;
     localAudioAnalyser := localAudioAnalyser s; userMediaError := userMediaError s;
     cameraDeviceId := cameraDeviceId s; microphoneDeviceId := Some id |}.

Definition setMicrophoneDevices (ds : list MediaDeviceInfo) : M unit :=
  modify_state (with_microphoneDevices ds) ;;
  emit (SetMicrophoneDevices ds).

Definition setActiveMicrophone (m : option LocalTrack) : M unit :=
  modify_state (with_activeMicrophone m) ;;
  emit (SetActiveMicrophone m).

Definition setCameraDevices (ds : list MediaDeviceInfo) : M unit :=
  modify_state (with_cameraDevices ds) ;;
  emit (SetCameraDevices ds).

Definition setActiveCamera (c : option LocalTrack) : M unit :=
  modify_state (with_activeCamera c) ;;
  emit (SetActiveCamera c).

Definition setLocalAudioAnalyser (a : AnalyserNode) : M unit :=
  modify_state (with_localAudioAnalyser a) ;;
  emit (SetLocalAudioAnalyser a).

Definition setUserMediaError (msg : string) : M unit :=
  modify_state (with_userMediaError msg) ;;
  emit (SetUserMediaError msg).

Definition setCameraDeviceId (id : string) : M unit :=
  modify_state (with_cameraDeviceId id) ;;
  emit (SetCameraDeviceId id).

Definition setMicrophoneDeviceId (id : string) : M unit :=
  modify_state (with_microphoneDeviceId id) ;;
  emit (SetMicrophoneDeviceId id).

(** *** Browser calls *)

#[global] Instance TrackKind_eq_dec : EqDecision TrackKind.
Proof. solve_decision. Defined.

#[global] Instance ReadyState_eq_dec : EqDecision ReadyState.
Proof. solve_decision. Defined.

#[global] Instance MediaDeviceKind_eq_dec : EqDecision MediaDeviceKind.
Proof. solve_decision. Defined.

#[global] Instance JsValue_eq_dec : EqDecision JsValue.
Proof. solve_decision. Defined.

(** How a [getUserMedia] call is answered: the promise rejects, or it
    resolves with newly created tracks of the given kinds. *)
Inductive Acquisition :=
  | Rejected (e : JsError)
  | Resolved (kinds : list TrackKind).

(** How the browser answers [enumerateDevices]. *)
Inductive Enumeration :=
  | EnumerationRejected (e : JsError)
  | Enumerated (devices : list MediaDeviceInfo).

(** How the Web Audio calls of one analyser setup go: one of
    [new AudioContext()], [createAnalyser()], [createMediaStreamSource]
    and [connect] throws, or the graph is built. *)
Inductive WebAudio :=
  | AudioThrows (e : JsError)
  | AudioBuilt.

(** A track as the browser hands it out: enabled and live. *)
Definition newTrack (k : TrackKind) : MediaStreamTrack :=
  {| kind := k; enabled := true; readyState := live |}.

(** [navigator.mediaDevices.getUserMedia(options)], awaited: a
    [MediaStream]. The tracks of the stream are new objects, placed after
    the existing ones. *)
Definition getUserMedia (options : CreateLocalMediaOptions)
    (answer : Acquisition) : M MediaStream :=
  emit (CallGetUserMedia options) ;;
  match answer with
  | Rejected e => throw e
  | Resolved kinds =>
      n <- read (fun s => length (heap (world s))) ;;
      modify_heap (fun h => h ++ map newTrack kinds) ;;
      ret (seq n (length kinds))
  end.

(** [navigator.mediaDevices.enumerateDevices()], awaited. *)
Definition enumerateDevices (answer : Enumeration) : M (list MediaDeviceInfo) :=
  emit CallEnumerateDevices ;;
  match answer with
  | EnumerationRejected e => throw e
  | Enumerated devices => ret devices
  end.

Definition end_track (t : MediaStreamTrack) : MediaStreamTrack :=
  {| kind := kind t; enabled := enabled t; readyState := ended |}.

(** [track.stop()] of a browser track. *)
Definition MediaStreamTrack_stop (r : TrackRef) : M unit :=
  emit (CallTrackStop r) ;;
  modify_heap (alter end_track r).

(** The heap after [stop()] on each track of a list, in order. *)
Fixpoint stop_all (l : list TrackRef) (h : list MediaStreamTrack) : list MediaStreamTrack :=
  match l with
  | [] => h
  | r :: l' => stop_all l' (alter end_track r h)
  end.

Definition set_enabled (b : bool) (t : MediaStreamTrack) : MediaStreamTrack :=
  {| kind := kind t; enabled := b; readyState := readyState t |}.

Definition kind_of (h : list MediaStreamTrack) (r : TrackRef) : option TrackKind :=
  kind <$> h !! r.

(** *** SDK calls *)

(** What the SDK's [getUserMedia] resolves with: an array of the SDK's own
    [LocalTrack]s, one around each new track; the array is given by the
    tracks. *)
Definition LocalTrackArray := list TrackRef.

(** The SDK's [getUserMedia(options)], awaited. The SDK acquires the tracks
    from the browser, so they are new objects placed after the existing
    ones, and resolves with the array of its handles. *)
Definition sdk_getUserMedia (options : CreateLocalMediaOptions)
    (answer : Acquisition) : M LocalTrackArray :=
  emit (CallSdkGetUserMedia options) ;;
  match answer with
  | Rejected e => throw e
  | Resolved kinds =>
      n <- read (fun s => length (heap (world s))) ;;
      modify_heap (fun h => h ++ map newTrack kinds) ;;
      ret (seq n (length kinds))
  end.

(** [stream.getVideoTracks()] and [stream.getAudioTracks()] on what the
    SDK resolved with. An array has no such method: the call is a call of
    [undefined] and throws a [TypeError]. *)
Definition getVideoTracks (stream : LocalTrackArray) : M (list JsValue) :=
  throw TypeError.

Definition getAudioTracks (stream : LocalTrackArray) : M (list JsValue) :=
  throw TypeError.

(** [array[0]]. *)
Definition first_of (values : list JsValue) : JsValue :=
  match values with
  | [] => JsUndefined
  | v :: _ => v
  end.

(** [localTrack.stop()] of the SDK: it calls [stop()] on the [track]
    property of the handle. Where that property is a browser track the
    track ends; on a string or on [undefined] there is no such method and
    the call throws a [TypeError]. *)
Definition LocalTrack_stop (t : LocalTrack) : M unit :=
  emit (CallLocalTrackStop t) ;;
  match track t with
  | JsTrack r => modify_heap (alter end_track r)
  | _ => throw TypeError
  end.

(** *** The callbacks of the context value *)

Definition userMediaErrorMessage : string :=
  "Error accessing user media devices. Please ensure that you have a working microphone and camera.".

Definition unsupportedMessage : string :=
  "getUserMedia is not supported in this browser. Please use a modern browser that supports this feature.".

(** [new MediaStream([track.track])] throws a [TypeError] unless the
    member is a browser track; after it the Web Audio calls throw or build
    the graph, and only then the analyser is stored. *)
Definition setupLocalMicrophoneAnalyser (t : LocalTrack) (webAudio : WebAudio) : M unit :=
  match track t with
  | JsTrack r =>
      match webAudio with
      | AudioThrows e => throw e
      | AudioBuilt =>
          setLocalAudioAnalyser
            {| an_source := r; frequencyBinCount := default_frequencyBinCount |}
      end
  | _ => throw TypeError
  end.

(** The promise chain with its final [.catch]. Reading
    [navigator.mediaDevices.getUserMedia] happens before the chain exists:
    where it is missing the call throws synchronously. *)
Definition requestPermissionAndPopulateDevices (gum : Acquisition)
    (enum : Enumeration) : M unit :=
  supported <- read (fun s => mediaDevicesSupported (world s)) ;;
  if (supported : bool) then
    try_catch
      (options <- read (fun s => defaultMicrophoneCameraOptions (world s)) ;;
       stream <- getUserMedia options gum ;;
       forEach stream MediaStreamTrack_stop ;;
       devices <- enumerateDevices enum ;;
       let audioDevices := filter (fun device => device_kind device = audioinput) devices in
       setMicrophoneDevices audioDevices ;;
       let videoDevices := filter (fun device => device_kind device = videoinput) devices in
       setCameraDevices videoDevices)
      (fun error => setUserMediaError userMediaErrorMessage)
  else throw TypeError.

(** Truthiness of an optional string argument. *)
Definition truthy_id (id : option string) : option string :=
  match id with
  | Some s => if String.eqb s "" then None else Some s
  | None => None
  end.

Definition with_audio (o : MediaOption) (c : CreateLocalMediaOptions) :=
  {| opt_video := opt_video c; opt_audio := o |}.

Definition with_video (o : MediaOption) (c : CreateLocalMediaOptions) :=
  {| opt_video := o; opt_audio := opt_audio c |}.

(** The callback of [stream.getTracks().forEach] in
    [requestPermissionAndStartDevices]. The browser track is passed to the
    constructor first and the kind second. *)
Definition startTrack (webAudio : WebAudio) (r : TrackRef) : M unit :=
  k <- read (fun s => kind_of (heap (world s)) r) ;;
  match k with
  | Some audio =>
      let newMicrophone :=
        new_LocalTrack (JsTrack r) (JsString "audio") (JsString "input") in
      setActiveMicrophone (Some newMicrophone) ;;
      setupLocalMicrophoneAnalyser newMicrophone webAudio
  | _ => ret tt
  end ;;
  match k with
  | Some video =>
      setActiveCamera
        (Some (new_LocalTrack (JsTrack r) (JsString "video") (JsString "input")))
  | _ => ret tt
  end.

(** [constraints] is the shared object [defaultMicrophoneCameraOptions]
    itself, so the two assignments write into it. *)
Definition requestPermissionAndStartDevices
    (microphoneDeviceId cameraDeviceId : option string)
    (gum : Acquisition) (webAudio : WebAudio) : M unit :=
  try_catch
    (supported <- read (fun s => mediaDevicesSupported (world s)) ;;
     (if (supported : bool) then ret tt else throw (Error unsupportedMessage)) ;;
     match truthy_id microphoneDeviceId with
     | Some id => modify_options (with_audio (Device id))
     | None => ret tt
     end ;;
     match truthy_id cameraDeviceId with
     | Some id => modify_options (with_video (Device id))
     | None => ret tt
     end ;;
     constraints <- read (fun s => defaultMicrophoneCameraOptions (world s)) ;;
     stream <- getUserMedia constraints gum ;;
     forEach stream (startTrack webAudio))
    (fun error =>
       emit (ConsoleError error) ;;
       setUserMediaError userMediaErrorMessage).

(** [getUserMedia] is here the function imported from the SDK. *)
Definition getCamera (deviceId : string) (gum : Acquisition) : M LocalTrack :=
  let constraints :=
    {| opt_video := Device deviceId; opt_audio := noMicrophoneOption_audio |} in
  stream <- sdk_getUserMedia constraints gum ;;
  videoTracks <- getVideoTracks stream ;;
  let track := first_of videoTracks in
  let camera := new_LocalTrack track (JsString "video") (JsString "input") in
  setActiveCamera (Some camera) ;;
  setCameraDeviceId deviceId ;;
  ret camera.

(** [activeCamera] is the one of the render that made the callback. *)
Definition stopActiveCamera (render : State) : M unit :=
  match activeCamera render with
  | Some c =>
      LocalTrack_stop c ;;
      setActiveCamera None
  | None => ret tt
  end.

(** The callback holds the [stopActiveCamera] of its own render. *)
Definition changeActiveCamera (render : State) (deviceId : string)
    (gum : Acquisition) : M LocalTrack :=
  stopActiveCamera render ;;
  getCamera deviceId gum.

Definition getMicrophone (deviceId : string) (gum : Acquisition)
    (webAudio : WebAudio) : M LocalTrack :=
  let constraints :=
    {| opt_video := noCameraOption_video; opt_audio := Device deviceId |} in
  stream <- sdk_getUserMedia constraints gum ;;
  audioTracks <- getAudioTracks stream ;;
  let track := first_of audioTracks in
  let microphone := new_LocalTrack track (JsString "audio") (JsString "input") in
  setActiveMicrophone (Some microphone) ;;
  setupLocalMicrophoneAnalyser microphone webAudio ;;
  setMicrophoneDeviceId deviceId ;;
  ret microphone.

(** [activeMicrophone.track.enabled = b]: a write to a property of the
    value the handle has for [track]. On a browser track it sets the
    flag; on a string (the module is strict code) and on [undefined] the
    write throws a [TypeError]. *)
Definition assign_enabled (m : LocalTrack) (b : bool) : M unit :=
  match track m with
  | JsTrack r => modify_heap (alter (set_enabled b) r)
  | _ => throw TypeError
  end.

Definition muteActiveMicrophone (render : State) : M unit :=
  match activeMicrophone render with
  | Some m => assign_enabled m false
  | None => ret tt
  end.

Definition unMuteActiveMicrophone (render : State) : M unit :=
  match activeMicrophone render with
  | Some m => assign_enabled m true
  | None => ret tt
  end.

Definition changeActiveMicrophone (render : State) (deviceId : string)
    (gum : Acquisition) (webAudio : WebAudio) : M LocalTrack :=
  match activeMicrophone render with
  | Some m => LocalTrack_stop m
  | None => ret tt
  end ;;
  getMicrophone deviceId gum webAudio.

(** *** Level metering *)

(** A JavaScript number, as far as the metering can produce one. *)
Inductive JsNumber :=
  | Finite (q : Q)
  | NaN
  | PosInfinity
  | NegInfinity.

Record Level := mkLevel { avgDb : JsNumber; peakDb : JsNumber }.

(** [new Uint8Array(n)] filled by [analyser.getByteFrequencyData]: the
    array starts as zeros and receives the spectrum, cut to its length. *)
Definition getByteFrequencyData (n : nat) (spectrum : list Byte.byte) : list Byte.byte :=
  take n (spectrum ++ replicate n Byte.x00).

Definition byte_value (b : Byte.byte) : Z := Z.of_N (Byte.to_N b).

(** [a / b] for an integer sum and an array length. *)
Definition js_div (a : Z) (b : nat) : JsNumber :=
  match b with
  | O => if (a =? 0)%Z then NaN else if (0 <? a)%Z then PosInfinity else NegInfinity
  | S _ => Finite (a # Pos.of_nat b)
  end.

(** [Math.max(...values)]. *)
Definition Math_max (values : list Z) : JsNumber :=
  match values with
  | [] => NegInfinity
  | v :: vs => Finite (inject_Z (fold_left Z.max vs v))
  end.

(** [activeMicrophone] and [localAudioAnalyser] are those of the render
    that made the callback. *)
Definition getActiveMicrophoneLevel (render : State) (spectrum : list Byte.byte)
    : M (option Level) :=
  match activeMicrophone render, localAudioAnalyser render with
  | Some _, Some a =>
      let dataArray :=
        getByteFrequencyData (Pos.to_nat (frequencyBinCount a)) spectrum in
      let values := map byte_value dataArray in
      let avgDb := js_div (fold_left (fun a b => (a + b)%Z) values 0%Z) (length values) in
      let peakDb := Math_max values in
      ret (Some {| avgDb := avgDb; peakDb := peakDb |})
  | _, _ => ret None
  end.

(** *** Sequences of calls on the context value *)

(** A call on the context value, with the answers of the browser and the
    SDK. For the callbacks that read state, [age] says which render the
    caller took the callback from: 0 is the latest. *)
Inductive Op :=
  | RequestPermissionAndPopulateDevices (gum : Acquisition) (enum : Enumeration)
  | RequestPermissionAndStartDevices (microphoneDeviceId cameraDeviceId : option string)
      (gum : Acquisition) (webAudio : WebAudio)
  | GetCamera (deviceId : string) (gum : Acquisition)
  | StopActiveCamera (age : nat)
  | ChangeActiveCamera (age : nat) (deviceId : string) (gum : Acquisition)
  | GetMicrophone (deviceId : string) (gum : Acquisition) (webAudio : WebAudio)
  | MuteActiveMicrophone (age : nat)
  | UnMuteActiveMicrophone (age : nat)
  | ChangeActiveMicrophone (age : nat) (deviceId : string) (gum : Acquisition)
      (webAudio : WebAudio)
  | GetActiveMicrophoneLevel (age : nat) (spectrum : list Byte.byte).

(** The state a call leaves behind, whether it returned or threw. *)
Definition run {A} (m : M A) (s : Sys) : Sys := snd (m s).

Definition outcome {A} (m : M A) (s : Sys) : Result A := fst (m s).

Definition step (o : Op) (s : Sys) : Sys :=
  match o with
  | RequestPermissionAndPopulateDevices gum enum =>
      run (requestPermissionAndPopulateDevices gum enum) s
  | RequestPermissionAndStartDevices mic cam gum webAudio =>
      run (requestPermissionAndStartDevices mic cam gum webAudio) s
  | GetCamera id gum => run (getCamera id gum) s
  | StopActiveCamera age => run (stopActiveCamera (render_at age s)) s
  | ChangeActiveCamera age id gum =>
      run (changeActiveCamera (render_at age s) id gum) s
  | GetMicrophone id gum webAudio => run (getMicrophone id gum webAudio) s
  | MuteActiveMicrophone age => run (muteActiveMicrophone (render_at age s)) s
  | UnMuteActiveMicrophone age => run (unMuteActiveMicrophone (render_at age s)) s
  | ChangeActiveMicrophone age id gum webAudio =>
      run (changeActiveMicrophone (render_at age s) id gum webAudio) s
  | GetActiveMicrophoneLevel age spectrum =>
      run (getActiveMicrophoneLevel (render_at age s) spectrum) s
  end.

Definition steps (ops : list Op) (s : Sys) : Sys :=
  fold_left (fun s o => step o s) ops s.

(** The calls a callback made: what it appended to the trace. *)
Definition calls {A} (m : M A) (s : Sys) : list Event :=
  drop (length (trace (world s))) (trace (world (run m s))).

(** *** Notions used by the properties *)

#[global] Instance LocalTrack_eq_dec : EqDecision LocalTrack.
Proof. solve_decision. Defined.


Definition is_stop_call (e : Event) : bool :=
  match e with
  | CallTrackStop _ | CallLocalTrackStop _ => true
  | _ => false
  end.

(** Track [r] is of kind [k] and has not ended. *)
Definition live_of (k : TrackKind) (h : list MediaStreamTrack) (r : TrackRef) : Prop :=
  kind <$> h !! r = Some k /\ readyState <$> h !! r = Some live.

#[global] Instance live_of_dec k h r : Decision (live_of k h r).
Proof. unfold live_of. apply _. Defined.

(** The tracks of a kind that are running. *)
Definition live_tracks (k : TrackKind) (h : list MediaStreamTrack) : list TrackRef :=
  filter (live_of k h) (seq 0 (length h)).

(** The states of the provider: those some sequence of calls on the
    context value leads to, from a fresh provider. *)
Definition reachable (s : Sys) : Prop :=
  exists supported ops, s = steps ops (initialSys supported).

(** A computation keeps a property of the system, however it ends. *)
Definition preserves {A} (P : Sys -> Prop) (m : M A) : Prop :=
  forall s, P s -> P (run m s).

(** The arithmetic mean of a list of integers. *)
Definition mean (values : list Z) : Q :=
  (inject_Z (foldr Z.add 0%Z values) / inject_Z (Z.of_nat (length values)))%Q.

(** [p] is the maximum of [values]. *)
Definition is_maximum (p : Z) (values : list Z) : Prop :=
  p ∈ values /\ forall v, v ∈ values -> (v <= p)%Z.

(** The device lists [requestPermissionAndPopulateDevices] stores. *)
Definition audioDevices (devices : list MediaDeviceInfo) : list MediaDeviceInfo :=
  filter (fun device => device_kind device = audioinput) devices.

Definition videoDevices (devices : list MediaDeviceInfo) : list MediaDeviceInfo :=
  filter (fun device => device_kind device = videoinput) devices.

(** Whether an acquisition, with the enumeration after it, fails. *)
Definition is_rejected (a : Acquisition) : bool :=
  match a with
  | Rejected _ => true
  | Resolved _ => false
  end.

Definition enumeration_rejected (e : Enumeration) : bool :=
  match e with
  | EnumerationRejected _ => true
  | Enumerated _ => false
  end.

(** *** Shapes of the runs *)

(** The heap after the dummy acquisition: the new tracks, all stopped. *)
Definition dummy_acquired (kinds : list TrackKind) (h : list MediaStreamTrack) :=
  stop_all (seq (length h) (length kinds)) (h ++ map newTrack kinds).

(** The calls of a [requestPermissionAndPopulateDevices] that meets no
    failure. *)
Definition populate_calls (s : Sys) (kinds : list TrackKind)
    (devices : list MediaDeviceInfo) : list Event :=
  [CallGetUserMedia (defaultMicrophoneCameraOptions (world s))]
  ++ map CallTrackStop (seq (length (heap (world s))) (length kinds))
  ++ [CallEnumerateDevices;
      SetMicrophoneDevices (audioDevices devices);
      SetCameraDevices (videoDevices devices)].

(** The shared options object after the two conditional assignments. *)
Definition start_options (microphoneDeviceId cameraDeviceId : option string)
    (c : CreateLocalMediaOptions) : CreateLocalMediaOptions :=
  let c1 := match truthy_id microphoneDeviceId with
            | Some id => with_audio (Device id) c
            | None => c
            end in
  match truthy_id cameraDeviceId with
  | Some id => with_video (Device id) c1
  | None => c1
  end.

(** The handles [requestPermissionAndStartDevices] builds from a track,
    and the analyser fed from a track. *)
Definition microphone_of (r : TrackRef) : LocalTrack :=
  new_LocalTrack (JsTrack r) (JsString "audio") (JsString "input").

Definition camera_of (r : TrackRef) : LocalTrack :=
  new_LocalTrack (JsTrack r) (JsString "video") (JsString "input").

Definition analyser_of (r : TrackRef) : AnalyserNode :=
  {| an_source := r; frequencyBinCount := default_frequencyBinCount |}.

(** The system as the loop of [requestPermissionAndStartDevices] finds it. *)
Definition start_acquired (mic cam : option string) (kinds : list TrackKind)
    (s : Sys) : Sys :=
  update_heap (fun h => h ++ map newTrack kinds)
    (record [CallGetUserMedia
               (start_options mic cam (defaultMicrophoneCameraOptions (world s)))]
       (update_options (start_options mic cam) s)).

(** What the loop does with the tracks of kinds [kinds], numbered from
    [n]: a video track is installed as the camera, and at the first audio
    track the microphone is installed and the analyser setup throws, the
    [track] of the new handle being a string. *)
Fixpoint start_loop (n : nat) (kinds : list TrackKind) (s : Sys) : Result unit * Sys :=
  match kinds with
  | [] => (Returned tt, s)
  | video :: kinds' =>
      start_loop (S n) kinds'
        (record [SetActiveCamera (Some (camera_of n))]
           (update_state (with_activeCamera (Some (camera_of n))) s))
  | audio :: _ =>
      (Thrown TypeError,
       record [SetActiveMicrophone (Some (microphone_of n))]
         (update_state (with_activeMicrophone (Some (microphone_of n))) s))
  end.

(** The [catch] block of [requestPermissionAndStartDevices], applied to
    what the [try] block left. *)
Definition start_caught (r : Result unit * Sys) : Result unit * Sys :=
  match r with
  | (Returned a, s') => (Returned a, s')
  | (Thrown e, s') =>
      (Returned tt,
       record [ConsoleError e; SetUserMediaError userMediaErrorMessage]
         (update_state (with_userMediaError userMediaErrorMessage) s'))
  end.

(** What the loop over the new stream leaves alone: the tracks, the
    options, the error slot, the analyser and the remembered device ids;
    and it calls no [stop]. *)
Record quiet (s s' : Sys) : Prop := {
  quiet_heap : heap (world s') = heap (world s);
  quiet_supported : mediaDevicesSupported (world s') = mediaDevicesSupported (world s);
  quiet_options :
    defaultMicrophoneCameraOptions (world s') = defaultMicrophoneCameraOptions (world s);
  quiet_error : userMediaError (st s') = userMediaError (st s);
  quiet_analyser : localAudioAnalyser (st s') = localAudioAnalyser (st s);
  quiet_trace :
    exists es, trace (world s') = trace (world s) ++ es
               /\ Forall (fun e => is_stop_call e = false) es
}.

(** The options [getCamera] and [getMicrophone] ask with. *)
Definition camera_options (deviceId : string) : CreateLocalMediaOptions :=
  {| opt_video := Device deviceId; opt_audio := noMicrophoneOption_audio |}.

Definition microphone_options (deviceId : string) : CreateLocalMediaOptions :=
  {| opt_video := noCameraOption_video; opt_audio := Device deviceId |}.

(** The system after an acquisition through the SDK has resolved. *)
Definition sdk_acquired (options : CreateLocalMediaOptions)
    (kinds : list TrackKind) (s : Sys) : Sys :=
  record [CallSdkGetUserMedia options]
    (update_heap (fun h => h ++ map newTrack kinds) s).


(** The tracks of kind [k] among new tracks of kinds [kinds], numbered
    from [n]. *)
Fixpoint acquired (k : TrackKind) (n : nat) (kinds : list TrackKind) : list TrackRef :=
  match kinds with
  | [] => []
  | k' :: kinds' =>
      (if decide (k' = k) then [n] else []) ++ acquired k (S n) kinds'
  end.

(** *** What the provider builds *)

(** A handle as [requestPermissionAndStartDevices] builds it for a track
    of kind [k]: the track was passed first, so the [track] property is
    the name of the kind. *)
Definition built_for (k : TrackKind) (h : list MediaStreamTrack) (t : LocalTrack) : Prop :=
  exists r, t = new_LocalTrack (JsTrack r) (JsString (kind_name k)) (JsString "input")
            /\ kind_of h r = Some k.

(** A render whose slots hold such handles only and that has no
    analyser. *)
Definition built_by_provider (h : list MediaStreamTrack) (t : State) : Prop :=
  (forall c, activeCamera t = Some c -> built_for video h c)
  /\ (forall m, activeMicrophone t = Some m -> built_for audio h m)
  /\ localAudioAnalyser t = None.

(** All renders so far are of that form. *)
Definition provider_built (s : Sys) : Prop :=
  built_by_provider (heap (world s)) (st s)
  /\ Forall (built_by_provider (heap (world s))) (renders s).

(** The error slot shows the static message. *)
Definition error_shown (t : State) : Prop :=
  userMediaError t = Some userMediaErrorMessage.

(** The error slot is empty or shows the static message. *)
Definition error_static (t : State) : Prop :=
  userMediaError t = None \/ userMediaError t = Some userMediaErrorMessage.

(** There is an active microphone. *)
Definition microphone_held (t : State) : Prop := is_Some (activeMicrophone t).

(** An analyser is only there with an active microphone. *)
Definition analyser_has_microphone (t : State) : Prop :=
  is_Some (localAudioAnalyser t) -> is_Some (activeMicrophone t).

(** The two device lists hold devices of their kind only. *)
Definition devices_sorted (t : State) : Prop :=
  Forall (fun device => device_kind device = audioinput) (microphoneDevices t)
  /\ Forall (fun device => device_kind device = videoinput) (cameraDevices t).

(** *** Example runs *)

Definition fresh : Sys := initialSys true.

Definition denied : JsError := DOMException "NotAllowedError".

(** A provider started in a browser that delivers a camera track only. *)
Definition one_camera : Sys :=
  run (requestPermissionAndStartDevices None None (Resolved [video]) AudioBuilt) fresh.

Definition second_start : M unit :=
  requestPermissionAndStartDevices None None (Resolved [video]) AudioBuilt.

Definition two_cameras : Sys :=
  steps [RequestPermissionAndStartDevices None None (Resolved [video]) AudioBuilt;
         RequestPermissionAndStartDevices None None (Resolved [video]) AudioBuilt]
    fresh.

(** A provider started in a browser that delivers a microphone track and a
    camera track. *)
Definition started : Sys :=
  steps [RequestPermissionAndStartDevices None None (Resolved [audio; video]) AudioBuilt]
    fresh.

(** Two camera switches in a row on a fresh provider, each through the
    callback of the latest render. *)
Definition switched : Sys :=
  steps [ChangeActiveCamera 0 "camera-1" (Resolved [video]);
         ChangeActiveCamera 0 "camera-2" (Resolved [video])] fresh.

Definition some_devices : list MediaDeviceInfo :=
  [mkDevice "mic-1" audioinput "Microphone";
   mkDevice "cam-1" videoinput "Camera";
   mkDevice "out-1" audiooutput "Speakers";
   mkDevice "mic-2" audioinput "Headset"].

Definition some_spectrum : list Byte.byte :=
  [Byte.x01; Byte.x03; Byte.xc8].

(** A render with an active microphone and an analyser, as
    [setupLocalMicrophoneAnalyser] stores one when the graph is built. *)
Definition metering : State :=
  with_localAudioAnalyser (analyser_of 0) (st started).

Definition failed_once : Sys :=
  run (requestPermissionAndPopulateDevices (Rejected denied) (Enumerated some_devices))
    fresh.

Definition populated : Sys :=
  steps [RequestPermissionAndPopulateDevices (Resolved [audio; video])
           (Enumerated some_devices)] fresh.

Definition some_level : Level :=
  {| avgDb := Finite (204 # 1024); peakDb := Finite (inject_Z 200) |}.

End UserMedia.

(** ** Tile layout: [GalleryLayout] *)

Module Gallery.

(** *** React values *)

Inductive PropValue :=
  | PNumber (q : Q)
  | PString (s : string)
  | PBoolean (b : bool).

(** A React element: its type and its props object. Keys are left out:
    [Children.map] rewrites them and nothing here reads them. *)
Record Element := mkElement {
  etype : string;
  props : gmap string PropValue
}.

(** A [ReactNode]. *)
#[warnings="-register-all"] Inductive ReactNode :=
  | RUndefined
  | RNull
  | RBoolean (b : bool)
  | RNumber (q : Q)
  | RString (s : string)
  | RElement (e : Element)
  | RArray (items : list ReactNode).

(** Truthiness of a number: not zero. *)
Definition number_truthy (q : Q) : bool := negb (Qeq_bool q 0).

(** Truthiness of a node, for [if (children)]. *)
Definition truthy (n : ReactNode) : bool :=
  match n with
  | RUndefined | RNull => false
  | RBoolean b => b
  | RNumber q => number_truthy q
  | RString s => negb (String.eqb s "")
  | RElement _ | RArray _ => true
  end.

Definition isValidElement (n : ReactNode) : bool :=
  match n with
  | RElement _ => true
  | _ => false
  end.

Definition is_nullish (n : ReactNode) : bool :=
  match n with
  | RUndefined | RNull => true
  | _ => false
  end.

(** The children as React's traversal visits them: arrays are flattened,
    and [undefined] and booleans reach the callback as [null]. *)
Fixpoint leaves (n : ReactNode) : list ReactNode :=
  match n with
  | RUndefined | RNull | RBoolean _ => [RNull]
  | RArray items =>
      (fix leaves_of (l : list ReactNode) : list ReactNode :=
         match l with
         | [] => []
         | x :: l' => leaves x ++ leaves_of l'
         end) items
  | _ => [n]
  end.

(** [Children.count(children)]. *)
Definition Children_count (children : ReactNode) : nat :=
  if is_nullish children then 0 else length (leaves children).

(** What one callback result contributes to the array [Children.map]
    returns: nothing for [null] and [undefined], the flattened non-null
    members for an array, the value itself otherwise. *)
Definition collect (mapped : ReactNode) : list ReactNode :=
  match mapped with
  | RUndefined | RNull => []
  | RArray _ => List.filter (fun x => negb (is_nullish x)) (leaves mapped)
  | _ => [mapped]
  end.

(** [Children.map(children, fn)]. *)
Definition Children_map (children : ReactNode) (fn : ReactNode -> ReactNode) : ReactNode :=
  if is_nullish children then children
  else RArray (flat_map (fun child => collect (fn child)) (leaves children)).

(** [cloneElement(child, { width, height })]. *)
Definition cloneElement (child : Element) (width height : Q) : Element :=
  {| etype := etype child;
     props := <["height" := PNumber height]> (<["width" := PNumber width]> (props child)) |}.

(** *** The component *)

Record Props := mkProps {
  gap : option Q;
  width : Q;
  height : Q;
  children : ReactNode
}.

(** The arguments of one [calcOptimalBoxes] call. *)
Record CalcArgs := mkCalcArgs {
  arg_width : Q;
  arg_height : Q;
  arg_n : nat;
  arg_aspectRatio : Q;
  arg_gap : Q
}.

Definition aspectRatio : Q := 16 # 9.

(** The destructuring default [gap = 10]. *)
Definition gap_of (p : Props) : Q := default (10 : Q) (gap p).

Definition calcArgs (p : Props) : CalcArgs :=
  {| arg_width := width p; arg_height := height p;
     arg_n := Children_count (children p);
     arg_aspectRatio := aspectRatio; arg_gap := gap_of p |}.

Section GalleryLayout.

(** [calcOptimalBoxes] lives in [lib/gallery]: the component is
    parameterised by it and by the shape of its result. *)
Variable BestFit : Type.
Variable fit_width fit_height : BestFit -> Q.
Variable calcOptimalBoxes : CalcArgs -> option BestFit.

(** The [useMemo] body: the calls made to the helper and the memoised
    value ([None] is [undefined]). *)
Definition bestFit (p : Props) : list CalcArgs * option BestFit :=
  if truthy (children p) then
    ([calcArgs p], calcOptimalBoxes (calcArgs p))
  else ([], None).

(** The callback given to [Children.map]. *)
Definition renderChild (fit : option BestFit) (child : ReactNode) : ReactNode :=
  match child, fit with
  | RElement e, Some bf =>
      if number_truthy (fit_width bf) && number_truthy (fit_height bf) then
        RElement (cloneElement e (fit_width bf) (fit_height bf))
      else child
  | _, _ => child
  end.

(** The children the component renders inside its flex container. *)
Definition GalleryLayout (p : Props) : ReactNode :=
  Children_map (children p) (renderChild (snd (bestFit p))).

End GalleryLayout.

(** A child with the dimensions injected: an element is cloned with them,
    anything else stays as it is. *)
Definition inject (w h : Q) (child : ReactNode) : ReactNode :=
  match child with
  | RElement e => RElement (cloneElement e w h)
  | _ => child
  end.

(** The items of a rendered array. *)
Definition items_of (n : ReactNode) : list ReactNode :=
  match n with
  | RArray items => items
  | _ => []
  end.

(** *** The box computation *)

Record Box := mkBox {
  cols : nat;
  rows : nat;
  box_width : Q;
  box_height : Q
}.

Definition Q_of_nat (n : nat) : Q := inject_Z (Z.of_nat n).

Definition ceil_div (n c : nat) : nat := (n + c - 1) / c.

Definition Q_min (x y : Q) : Q := if Qle_bool x y then x else y.

(** The largest box of the aspect ratio that a grid of [c] columns allows:
    the gaps are taken from the viewport, the rest is shared among the
    columns and the rows, and the tighter direction decides. *)
Definition candidate (a : CalcArgs) (c : nat) : Box :=
  let r := ceil_div (arg_n a) c in
  let availableWidth := (arg_width a - arg_gap a * Q_of_nat (c - 1))%Q in
  let availableHeight := (arg_height a - arg_gap a * Q_of_nat (r - 1))%Q in
  let w := Q_min (availableWidth / Q_of_nat c)%Q
                 (availableHeight / Q_of_nat r * arg_aspectRatio a)%Q in
  {| cols := c; rows := r; box_width := w;
     box_height := (w / arg_aspectRatio a)%Q |}.

Definition positive (q : Q) : bool := negb (Qle_bool q 0).

Definition larger (b b0 : Box) : bool := negb (Qle_bool (box_width b) (box_width b0)).

Definition keep_best (a : CalcArgs) (best : option Box) (c : nat) : option Box :=
  let b := candidate a c in
  if positive (box_width b) then
    match best with
    | None => Some b
    | Some b0 => if larger b b0 then Some b else best
    end
  else best.

(** Modelled from the spec: [calcOptimalBoxes] of [lib/gallery] is not
    part of the sources. The specification describes it as a grid
    arrangement fitting N equally sized boxes of a fixed aspect ratio into
    a bounded viewport, computing the box dimensions that best fill the
    viewport, with no failure beyond the absence of a fit. Here: every
    column count from 1 to N is tried, the grid with the largest box wins,
    and there is no result when no grid leaves room for a box. *)
Definition calcOptimalBoxes (a : CalcArgs) : option Box :=
  fold_left (keep_best a) (seq 1 (arg_n a)) None.

(** *** Notions used by the properties *)

(** What reaches the callback is never an array, [undefined] or a
    boolean. *)
Definition is_leaf (n : ReactNode) : Prop :=
  match n with
  | RArray _ | RUndefined | RBoolean _ => False
  | _ => True
  end.


(** *** Example props *)

Definition tile : ReactNode := RElement (mkElement "Tile" ∅).

Definition three_children : Props :=
  {| gap := None; width := 1280; height := 720;
     children := RArray [tile; RString "caption"; tile] |}.

Definition no_children : Props :=
  {| gap := None; width := 1280; height := 720; children := RNull |}.


(** The number 0 as the only child. *)
Definition zero_child : Props :=
  {| gap := None; width := 1280; height := 720; children := RNumber 0 |}.

Definition fixed_box : Box :=
  {| cols := 2; rows := 2; box_width := 630; box_height := 354 |}.

Definition fixed_fit (a : CalcArgs) : option Box := Some fixed_box.

(** *** Notions used by the further properties *)

(** [child'] is [child], but for the width and the height of an element. *)
Definition same_but_size (child child' : ReactNode) : Prop :=
  match child, child' with
  | RElement e, RElement e' =>
      etype e' = etype e
      /\ forall key, key <> "width" -> key <> "height" ->
                     props e' !! key = props e !! key
  | _, _ => child' = child
  end.

(** The children that reach the callback and are not [null]. *)
Definition rendered_leaves (children : ReactNode) : list ReactNode :=
  List.filter (fun child => negb (is_nullish child)) (leaves children).

(** The children that are counted but render nothing: [null], [undefined]
    and booleans inside an array, or a single boolean. *)
Definition empty_children (children : ReactNode) : nat :=
  if is_nullish children then 0
  else length (List.filter is_nullish (leaves children)).

End Gallery.
(** ** Properties of [UserMediaProvider] *)

Module UserMediaFacts.
Import UserMedia.

(** *** Running the monad *)

Ltac monad_cbv :=
  cbv beta iota zeta delta
    [run outcome bind ret throw read try_catch emit
     modify_state modify_heap modify_options
     setMicrophoneDevices setActiveMicrophone setCameraDevices setActiveCamera
     setLocalAudioAnalyser setUserMediaError setCameraDeviceId
     setMicrophoneDeviceId getUserMedia sdk_getUserMedia enumerateDevices
     LocalTrack_stop MediaStreamTrack_stop getVideoTracks getAudioTracks
     setupLocalMicrophoneAnalyser assign_enabled fst snd].

Ltac unfold_updates :=
  unfold record, update_state, update_heap, update_options in *.

(** Two descriptions of one system that differ in the bracketing of the
    trace only. *)
Ltac same_system :=
  unfold_updates; cbn; rewrite <- ?app_assoc; reflexivity.

Lemma calls_of_run {A} (m : M A) (s : Sys) (r : Result A) (s' : Sys) (es : list Event) :
  m s = (r, s') -> trace (world s') = trace (world s) ++ es -> calls m s = es.
Proof.
  intros Hm Htrace. unfold calls, run. rewrite Hm. simpl.
  rewrite Htrace. apply drop_app_length.
Qed.

Lemma bind_returned {A B} (m : M A) (k : A -> M B) (s s' : Sys) (a : A) :
  m s = (Returned a, s') -> bind m k s = k a s'.
Proof. intros Hm. unfold bind. now rewrite Hm. Qed.

Lemma bind_thrown {A B} (m : M A) (k : A -> M B) (s s' : Sys) (e : JsError) :
  m s = (Thrown e, s') -> bind m k s = (Thrown e, s').
Proof. intros Hm. unfold bind. now rewrite Hm. Qed.

(** *** Stopping a handle *)


Lemma LocalTrack_stop_unwrapped (t : LocalTrack) (s : Sys) :
  (forall r, track t <> JsTrack r) ->
  LocalTrack_stop t s = (Thrown TypeError, record [CallLocalTrackStop t] s).
Proof.
  intros Ht. unfold LocalTrack_stop. monad_cbv.
  destruct (track t) as [|x|r]; [reflexivity|reflexivity|].
  now destruct (Ht r).
Qed.

Lemma built_for_unwrapped (k : TrackKind) (h : list MediaStreamTrack) (t : LocalTrack) :
  built_for k h t -> forall r, track t <> JsTrack r.
Proof. intros [r0 [-> _]] r. discriminate. Qed.

(** *** Stopping the camera *)

Lemma stopActiveCamera_no_camera (render : State) (s : Sys) :
  activeCamera render = None -> stopActiveCamera render s = (Returned tt, s).
Proof. intros Hnone. unfold stopActiveCamera. now rewrite Hnone. Qed.


Lemma stopActiveCamera_unwrapped (render : State) (s : Sys) (c : LocalTrack) :
  activeCamera render = Some c -> (forall r, track c <> JsTrack r) ->
  stopActiveCamera render s = (Thrown TypeError, record [CallLocalTrackStop c] s).
Proof.
  intros Hc Hr. unfold stopActiveCamera. rewrite Hc.
  apply bind_thrown, LocalTrack_stop_unwrapped, Hr.
Qed.


(** *** Muting *)

Lemma assign_enabled_wrapped (m : LocalTrack) (b : bool) (r : TrackRef) (s : Sys) :
  track m = JsTrack r ->
  assign_enabled m b s = (Returned tt, update_heap (alter (set_enabled b) r) s).
Proof. intros Hr. unfold assign_enabled. now rewrite Hr. Qed.

Lemma alter_set_enabled_twice (b : bool) (r : TrackRef) (h : list MediaStreamTrack) :
  alter (set_enabled b) r (alter (set_enabled b) r h) = alter (set_enabled b) r h.
Proof.
  rewrite list_alter_alter_eq. apply list_alter_ext; [|reflexivity].
  intros t _. reflexivity.
Qed.

Lemma assign_enabled_unwrapped (m : LocalTrack) (b : bool) (s : Sys) :
  (forall r, track m <> JsTrack r) ->
  assign_enabled m b s = (Thrown TypeError, s).
Proof.
  intros Hr. unfold assign_enabled.
  destruct (track m) as [|x|r]; [reflexivity|reflexivity|].
  now destruct (Hr r).
Qed.

(** C5, at a provider whose microphone was installed by
    [requestPermissionAndStartDevices]. The handle in the slot has the
    string ["audio"] for its [track], so the assignment to
    [activeMicrophone.track.enabled] throws a [TypeError] in both
    callbacks and nothing changes: after muting, the [enabled] flag of the
    acquired microphone track is still true. What holds of the claim: in
    any state, calling either callback twice leaves the system as calling
    it once does. *)
Theorem mute_throws_on_started :
  activeMicrophone (st started) = Some (microphone_of 0)
  /\ track (microphone_of 0) = JsString "audio"
  /\ heap (world started) !! 0 = Some (newTrack audio)
  /\ outcome (muteActiveMicrophone (st started)) started = Thrown TypeError
  /\ run (muteActiveMicrophone (st started)) started = started
  /\ enabled <$> heap (world (run (muteActiveMicrophone (st started)) started)) !! 0
     = Some true
  /\ outcome (unMuteActiveMicrophone (st started)) started = Thrown TypeError
  /\ run (unMuteActiveMicrophone (st started)) started = started
  /\ forall (render : State) (s : Sys),
       run (muteActiveMicrophone render) (run (muteActiveMicrophone render) s)
       = run (muteActiveMicrophone render) s
       /\ run (unMuteActiveMicrophone render) (run (unMuteActiveMicrophone render) s)
          = run (unMuteActiveMicrophone render) s.
Proof.
  do 8 (split; [reflexivity|]).
  intros render s. unfold run, muteActiveMicrophone, unMuteActiveMicrophone.
  destruct (activeMicrophone render) as [m|]; [|now split].
  destruct (track m) as [|x|r] eqn:Hr.
  - rewrite !assign_enabled_unwrapped by (intros r; rewrite Hr; discriminate).
    now split.
  - rewrite !assign_enabled_unwrapped by (intros r; rewrite Hr; discriminate).
    now split.
  - rewrite !(assign_enabled_wrapped m _ r) by exact Hr.
    unfold update_heap. cbn. rewrite !alter_set_enabled_twice. now split.
Qed.

(** *** Level metering *)

Lemma length_getByteFrequencyData (n : nat) (spectrum : list Byte.byte) :
  length (getByteFrequencyData n spectrum) = n.
Proof.
  unfold getByteFrequencyData.
  rewrite length_take, length_app, length_replicate. lia.
Qed.

Lemma fold_left_add_foldr (values : list Z) (acc : Z) :
  fold_left (fun a b => (a + b)%Z) values acc = (acc + foldr Z.add 0 values)%Z.
Proof.
  revert acc. induction values as [|v values IH]; intros acc; simpl.
  - lia.
  - rewrite IH. lia.
Qed.

Lemma js_div_mean (values : list Z) :
  values <> [] ->
  exists avg, js_div (fold_left (fun a b => (a + b)%Z) values 0%Z) (length values)
              = Finite avg /\ (avg == mean values)%Q.
Proof.
  intros Hne. destruct values as [|v values]; [congruence|].
  unfold js_div, mean. cbn [length].
  eexists. split; [reflexivity|].
  rewrite fold_left_add_foldr, Z.add_0_l.
  rewrite <- (Nat2Pos.id (S (length values))) at 2 by lia.
  rewrite positive_nat_Z. apply Qmake_Qdiv.
Qed.

Lemma fold_left_max_is_maximum (vs : list Z) (v : Z) :
  is_maximum (fold_left Z.max vs v) (v :: vs).
Proof.
  revert v. induction vs as [|x vs IH]; intros v; simpl.
  - split; [left|]. intros w Hw. apply list_elem_of_singleton in Hw. lia.
  - destruct (IH (Z.max v x)) as [Hin Hle]. split.
    + apply elem_of_cons in Hin as [Heq|Hin].
      * rewrite Heq. destruct (Z.max_spec v x) as [[_ ->]|[_ ->]].
        -- right; left.
        -- left.
      * right; right; exact Hin.
    + intros w Hw.
      assert (Hmax : (Z.max v x <= fold_left Z.max vs (Z.max v x))%Z)
        by (apply Hle; left).
      apply elem_of_cons in Hw as [->|Hw].
      * lia.
      * apply elem_of_cons in Hw as [->|Hw]; [lia|].
        apply Hle. right; exact Hw.
Qed.

(** What [getActiveMicrophoneLevel] returns, for any render. *)
Lemma level_of_render (render : State) (s : Sys)
    (spectrum : list Byte.byte) :
  run (getActiveMicrophoneLevel render spectrum) s = s
  /\ (outcome (getActiveMicrophoneLevel render spectrum) s = Returned None
      <-> activeMicrophone render = None \/ localAudioAnalyser render = None)
  /\ (forall m a,
        activeMicrophone render = Some m ->
        localAudioAnalyser render = Some a ->
        let values :=
          map byte_value
            (getByteFrequencyData (Pos.to_nat (frequencyBinCount a)) spectrum) in
        length values = Pos.to_nat (frequencyBinCount a)
        /\ exists avg peak,
             outcome (getActiveMicrophoneLevel render spectrum) s
             = Returned (Some {| avgDb := Finite avg; peakDb := Finite (inject_Z peak) |})
             /\ (avg == mean values)%Q
             /\ is_maximum peak values).
Proof.
  unfold getActiveMicrophoneLevel. monad_cbv.
  destruct (activeMicrophone render) as [m|], (localAudioAnalyser render) as [a|];
    simpl.
  2-4: split; [reflexivity|]; split; [split; auto|]; intros; discriminate.
  split; [reflexivity|]. split.
  - split; [discriminate|]. intros [H|H]; discriminate.
  - intros m' a' Hm Ha. injection Ha as <-. clear m' Hm.
    set (values := map byte_value
                     (getByteFrequencyData (Pos.to_nat (frequencyBinCount a)) spectrum)).
    assert (Hlen : length values = Pos.to_nat (frequencyBinCount a)).
    { unfold values. now rewrite length_map, length_getByteFrequencyData. }
    split; [exact Hlen|].
    assert (Hne : values <> []).
    { intros Hnil. rewrite Hnil in Hlen. simpl in Hlen. lia. }
    destruct (js_div_mean values Hne) as [avg [Havg Hmean]].
    destruct values as [|v vs] eqn:Hvalues; [congruence|].
    exists avg, (fold_left Z.max vs v). split; [|split].
    + rewrite <- Havg. reflexivity.
    + exact Hmean.
    + apply fold_left_max_is_maximum.
Qed.

(** C9. Through the callback of any render and in any state of the
    system, [getActiveMicrophoneLevel] changes nothing; it returns null
    exactly when its render has no active microphone or no analyser;
    otherwise it returns a record whose [avgDb] is the arithmetic mean of
    the analyser's byte frequency data, one value per frequency bin, and
    whose [peakDb] is the maximum of those values. *)
Theorem getActiveMicrophoneLevel_spec (render : State) (s : Sys)
    (spectrum : list Byte.byte) :
  run (getActiveMicrophoneLevel render spectrum) s = s
  /\ (outcome (getActiveMicrophoneLevel render spectrum) s = Returned None
      <-> activeMicrophone render = None \/ localAudioAnalyser render = None)
  /\ (forall m a,
        activeMicrophone render = Some m ->
        localAudioAnalyser render = Some a ->
        let values :=
          map byte_value
            (getByteFrequencyData (Pos.to_nat (frequencyBinCount a)) spectrum) in
        length values = Pos.to_nat (frequencyBinCount a)
        /\ exists avg peak,
             outcome (getActiveMicrophoneLevel render spectrum) s
             = Returned (Some {| avgDb := Finite avg; peakDb := Finite (inject_Z peak) |})
             /\ (avg == mean values)%Q
             /\ is_maximum peak values).
Proof. exact (level_of_render render s spectrum). Qed.

(** *** Populating the device lists *)

Lemma forEach_stop (l : list TrackRef) (s : Sys) :
  forEach l MediaStreamTrack_stop s
  = (Returned tt, record (map CallTrackStop l) (update_heap (stop_all l) s)).
Proof.
  revert s. induction l as [|r l IH]; intros s.
  - destruct s as [t [h sup opts tr] rs]. unfold_updates. simpl.
    unfold ret. now rewrite app_nil_r.
  - cbn [forEach]. unfold bind at 1. unfold MediaStreamTrack_stop at 1.
    monad_cbv. rewrite IH. unfold_updates. simpl.
    now rewrite <- app_assoc.
Qed.

Lemma lookup_stop_all (l : list TrackRef) (h : list MediaStreamTrack) (i : nat) :
  stop_all l h !! i
  = (if decide (i ∈ l) then end_track else id) <$> h !! i.
Proof.
  revert h. induction l as [|r l IH]; intros h; cbn [stop_all].
  - rewrite decide_False by apply not_elem_of_nil. by destruct (h !! i).
  - rewrite IH, list_lookup_alter.
    destruct (decide (r = i)) as [->|Hne].
    + rewrite (decide_True (P := i ∈ i :: l)) by left.
      destruct (decide (i ∈ l)); by destruct (h !! i).
    + destruct (decide (i ∈ l)) as [Hin|Hnin].
      * rewrite (decide_True (P := i ∈ r :: l)) by (by right). done.
      * rewrite (decide_False (P := i ∈ r :: l)); [done|].
        intros [Heq|Hin]%elem_of_cons; [congruence|contradiction].
Qed.

Lemma populate_resolved (s : Sys) (kinds : list TrackKind) (devices : list MediaDeviceInfo) :
  mediaDevicesSupported (world s) = true ->
  requestPermissionAndPopulateDevices (Resolved kinds) (Enumerated devices) s
  = (Returned tt,
     record (populate_calls s kinds devices)
       (update_state (with_cameraDevices (videoDevices devices))
          (update_state (with_microphoneDevices (audioDevices devices))
             (update_heap (dummy_acquired kinds) s)))).
Proof.
  intros Hsup. unfold requestPermissionAndPopulateDevices. monad_cbv.
  rewrite Hsup. rewrite forEach_stop.
  unfold populate_calls, dummy_acquired. same_system.
Qed.

Lemma populate_acquisition_rejected (s : Sys) (e : JsError) (enum : Enumeration) :
  mediaDevicesSupported (world s) = true ->
  requestPermissionAndPopulateDevices (Rejected e) enum s
  = (Returned tt,
     record [CallGetUserMedia (defaultMicrophoneCameraOptions (world s));
             SetUserMediaError userMediaErrorMessage]
       (update_state (with_userMediaError userMediaErrorMessage) s)).
Proof.
  intros Hsup. unfold requestPermissionAndPopulateDevices. monad_cbv.
  rewrite Hsup. same_system.
Qed.

Lemma populate_enumeration_rejected (s : Sys) (kinds : list TrackKind) (e : JsError) :
  mediaDevicesSupported (world s) = true ->
  requestPermissionAndPopulateDevices (Resolved kinds) (EnumerationRejected e) s
  = (Returned tt,
     record ([CallGetUserMedia (defaultMicrophoneCameraOptions (world s))]
             ++ map CallTrackStop (seq (length (heap (world s))) (length kinds))
             ++ [CallEnumerateDevices; SetUserMediaError userMediaErrorMessage])
       (update_state (with_userMediaError userMediaErrorMessage)
          (update_heap (dummy_acquired kinds) s))).
Proof.
  intros Hsup. unfold requestPermissionAndPopulateDevices. monad_cbv.
  rewrite Hsup. rewrite forEach_stop.
  unfold dummy_acquired. same_system.
Qed.

Lemma populate_unsupported (s : Sys) (gum : Acquisition) (enum : Enumeration) :
  mediaDevicesSupported (world s) = false ->
  requestPermissionAndPopulateDevices gum enum s = (Thrown TypeError, s).
Proof.
  intros Hsup. unfold requestPermissionAndPopulateDevices. monad_cbv.
  now rewrite Hsup.
Qed.

Lemma dummy_acquired_ended (kinds : list TrackKind) (h : list MediaStreamTrack) (r : nat) :
  r ∈ seq (length h) (length kinds) ->
  readyState <$> dummy_acquired kinds h !! r = Some ended.
Proof.
  intros Hr. unfold dummy_acquired.
  rewrite lookup_stop_all, decide_True by exact Hr.
  apply elem_of_seq in Hr.
  rewrite lookup_app_r by lia.
  destruct (lookup_lt_is_Some_2 (map newTrack kinds) (r - length h)) as [t Ht].
  { rewrite length_map. lia. }
  rewrite Ht. reflexivity.
Qed.

(** C6. Where the acquisition and the enumeration both resolve,
    [requestPermissionAndPopulateDevices] calls [getUserMedia] first, then
    [stop()] on each track of the stream it got, then [enumerateDevices],
    and it stores the enumerated devices of kind "audioinput" as
    [microphoneDevices] and those of kind "videoinput" as [cameraDevices],
    each in the order of the enumeration; every track of the dummy stream
    has ended. *)
Theorem populate_devices (s : Sys) (kinds : list TrackKind) (devices : list MediaDeviceInfo) :
  mediaDevicesSupported (world s) = true ->
  let m := requestPermissionAndPopulateDevices (Resolved kinds) (Enumerated devices) in
  let stream := seq (length (heap (world s))) (length kinds) in
  outcome m s = Returned tt
  /\ calls m s
     = [CallGetUserMedia (defaultMicrophoneCameraOptions (world s))]
       ++ map CallTrackStop stream
       ++ [CallEnumerateDevices;
           SetMicrophoneDevices
             (filter (fun device => device_kind device = audioinput) devices);
           SetCameraDevices
             (filter (fun device => device_kind device = videoinput) devices)]
  /\ (forall r, r ∈ stream ->
        readyState <$> heap (world (run m s)) !! r = Some ended)
  /\ microphoneDevices (st (run m s))
     = filter (fun device => device_kind device = audioinput) devices
  /\ cameraDevices (st (run m s))
     = filter (fun device => device_kind device = videoinput) devices.
Proof.
  intros Hsup m stream. subst m stream.
  pose proof (populate_resolved s kinds devices Hsup) as Hrun.
  split; [|split; [|split; [|split]]].
  - unfold outcome. now rewrite Hrun.
  - apply (calls_of_run _ _ _ _ _ Hrun). reflexivity.
  - intros r Hr. unfold run. rewrite Hrun. simpl.
    apply dummy_acquired_ended, Hr.
  - unfold run. now rewrite Hrun.
  - unfold run. now rewrite Hrun.
Qed.

(** *** Starting the devices *)

Lemma startTrack_audio (webAudio : WebAudio) (r : TrackRef) (s : Sys) :
  kind_of (heap (world s)) r = Some audio ->
  startTrack webAudio r s
  = (Thrown TypeError,
     record [SetActiveMicrophone (Some (microphone_of r))]
       (update_state (with_activeMicrophone (Some (microphone_of r))) s)).
Proof.
  intros Hk. unfold startTrack. monad_cbv. rewrite Hk. reflexivity.
Qed.

Lemma startTrack_video (webAudio : WebAudio) (r : TrackRef) (s : Sys) :
  kind_of (heap (world s)) r = Some video ->
  startTrack webAudio r s
  = (Returned tt,
     record [SetActiveCamera (Some (camera_of r))]
       (update_state (with_activeCamera (Some (camera_of r))) s)).
Proof.
  intros Hk. unfold startTrack. monad_cbv. rewrite Hk. reflexivity.
Qed.

Lemma startTrack_other (webAudio : WebAudio) (r : TrackRef) (s : Sys) :
  kind_of (heap (world s)) r = None -> startTrack webAudio r s = (Returned tt, s).
Proof.
  intros Hk. unfold startTrack. monad_cbv. rewrite Hk. reflexivity.
Qed.

(** The loop over a stream of new tracks is [start_loop] on their
    kinds. *)
Lemma start_loop_eq (webAudio : WebAudio) (kinds : list TrackKind) (n : nat) (s : Sys) :
  (forall i k, kinds !! i = Some k -> kind_of (heap (world s)) (n + i) = Some k) ->
  forEach (seq n (length kinds)) (startTrack webAudio) s = start_loop n kinds s.
Proof.
  revert n s. induction kinds as [|k kinds IH]; intros n s Hkinds; [reflexivity|].
  assert (Hk : kind_of (heap (world s)) n = Some k).
  { rewrite <- (Nat.add_0_r n). now apply Hkinds. }
  cbn [length seq forEach start_loop]. destruct k.
  - apply bind_thrown, startTrack_audio, Hk.
  - rewrite (bind_returned _ _ _ _ _ (startTrack_video webAudio n s Hk)).
    apply IH. intros i k Hi.
    change (kind_of (heap (world s)) (S n + i) = Some k).
    replace (S n + i) with (n + S i) by lia. now apply Hkinds.
Qed.

Lemma quiet_refl (s : Sys) : quiet s s.
Proof.
  split; try reflexivity. exists []. split; [now rewrite app_nil_r|constructor].
Qed.

Lemma quiet_trans (s1 s2 s3 : Sys) : quiet s1 s2 -> quiet s2 s3 -> quiet s1 s3.
Proof.
  intros [Hh Hs Ho He Ha [es [Ht Hes]]] [Hh' Hs' Ho' He' Ha' [es' [Ht' Hes']]].
  split; try congruence.
  exists (es ++ es'). split.
  - rewrite Ht', Ht. now rewrite app_assoc.
  - apply Forall_app. split; assumption.
Qed.

Lemma start_loop_quiet (kinds : list TrackKind) (n : nat) (s : Sys) :
  quiet s (snd (start_loop n kinds s)).
Proof.
  revert n s. induction kinds as [|k kinds IH]; intros n s; [apply quiet_refl|].
  cbn [start_loop]. destruct k.
  - split; try reflexivity. eexists. split; [reflexivity|]. repeat constructor.
  - eapply quiet_trans; [|apply IH].
    split; try reflexivity. eexists. split; [reflexivity|]. repeat constructor.
Qed.

Lemma kind_of_new (h : list MediaStreamTrack) (kinds : list TrackKind) (i : nat) :
  kind_of (h ++ map newTrack kinds) (length h + i) = kinds !! i.
Proof.
  unfold kind_of. rewrite lookup_app_r by lia.
  replace (length h + i - length h) with i by lia.
  rewrite list_lookup_fmap. now destruct (kinds !! i).
Qed.

Lemma start_unsupported (s : Sys) (mic cam : option string) (gum : Acquisition)
    (webAudio : WebAudio) :
  mediaDevicesSupported (world s) = false ->
  requestPermissionAndStartDevices mic cam gum webAudio s
  = (Returned tt,
     record [ConsoleError (Error unsupportedMessage);
             SetUserMediaError userMediaErrorMessage]
       (update_state (with_userMediaError userMediaErrorMessage) s)).
Proof.
  intros Hsup. unfold requestPermissionAndStartDevices. monad_cbv.
  rewrite Hsup. same_system.
Qed.

Lemma start_rejected (s : Sys) (mic cam : option string) (e : JsError)
    (webAudio : WebAudio) :
  mediaDevicesSupported (world s) = true ->
  requestPermissionAndStartDevices mic cam (Rejected e) webAudio s
  = (Returned tt,
     record [CallGetUserMedia
               (start_options mic cam (defaultMicrophoneCameraOptions (world s)));
             ConsoleError e;
             SetUserMediaError userMediaErrorMessage]
       (update_state (with_userMediaError userMediaErrorMessage)
          (update_options (start_options mic cam) s))).
Proof.
  intros Hsup. unfold requestPermissionAndStartDevices, start_options. monad_cbv.
  rewrite Hsup.
  destruct (truthy_id mic), (truthy_id cam); same_system.
Qed.

Lemma start_resolved (s : Sys) (mic cam : option string) (kinds : list TrackKind)
    (webAudio : WebAudio) :
  mediaDevicesSupported (world s) = true ->
  requestPermissionAndStartDevices mic cam (Resolved kinds) webAudio s
  = start_caught
      (start_loop (length (heap (world s))) kinds (start_acquired mic cam kinds s)).
Proof.
  intros Hsup.
  rewrite <- (start_loop_eq webAudio).
  2:{ intros i k Hi. cbn. now rewrite kind_of_new. }
  unfold requestPermissionAndStartDevices, start_acquired, start_options, start_caught.
  monad_cbv. rewrite Hsup.
  destruct (truthy_id mic), (truthy_id cam); unfold_updates; cbn;
    match goal with
    | |- context [forEach ?l ?f ?S] => destruct (forEach l f S) as [[[]|e] s']
    end; rewrite <- ?app_assoc; reflexivity.
Qed.

(** What a resolved start leaves: the system the loop left, with the error
    stored where the loop threw. *)
Lemma start_caught_quiet (s s0 : Sys) (r : Result unit) :
  quiet s s0 ->
  heap (world (snd (start_caught (r, s0)))) = heap (world s)
  /\ mediaDevicesSupported (world (snd (start_caught (r, s0))))
     = mediaDevicesSupported (world s)
  /\ defaultMicrophoneCameraOptions (world (snd (start_caught (r, s0))))
     = defaultMicrophoneCameraOptions (world s)
  /\ localAudioAnalyser (st (snd (start_caught (r, s0)))) = localAudioAnalyser (st s)
  /\ (userMediaError (st (snd (start_caught (r, s0)))) = userMediaError (st s)
      \/ userMediaError (st (snd (start_caught (r, s0)))) = Some userMediaErrorMessage)
  /\ fst (start_caught (r, s0)) = Returned tt
  /\ exists es, trace (world (snd (start_caught (r, s0)))) = trace (world s) ++ es
                /\ Forall (fun e => is_stop_call e = false) es.
Proof.
  intros [Hh Hs Ho He Ha [es [Ht Hes]]].
  destruct r as [[]|e]; cbn.
  - repeat (split; [assumption || (left; assumption) || reflexivity|]).
    exists es. now split.
  - repeat (split; [assumption || (right; reflexivity) || reflexivity|]).
    exists (es ++ [ConsoleError e; SetUserMediaError userMediaErrorMessage]).
    split; [now rewrite Ht, <- app_assoc|].
    apply Forall_app. split; [exact Hes|repeat constructor].
Qed.

(** *** Acquiring one device *)

Lemma getCamera_rejected (s : Sys) (id : string) (e : JsError) :
  getCamera id (Rejected e) s
  = (Thrown e, record [CallSdkGetUserMedia (camera_options id)] s).
Proof. reflexivity. Qed.

Lemma getCamera_resolved (s : Sys) (id : string) (kinds : list TrackKind) :
  getCamera id (Resolved kinds) s
  = (Thrown TypeError, sdk_acquired (camera_options id) kinds s).
Proof. reflexivity. Qed.

Lemma getMicrophone_rejected (s : Sys) (id : string) (e : JsError) (webAudio : WebAudio) :
  getMicrophone id (Rejected e) webAudio s
  = (Thrown e, record [CallSdkGetUserMedia (microphone_options id)] s).
Proof. reflexivity. Qed.

Lemma getMicrophone_resolved (s : Sys) (id : string) (kinds : list TrackKind)
    (webAudio : WebAudio) :
  getMicrophone id (Resolved kinds) webAudio s
  = (Thrown TypeError, sdk_acquired (microphone_options id) kinds s).
Proof. reflexivity. Qed.

(** *** C2: where acquisition failures go *)

(** C2, as the code has it. Where [getUserMedia] exists,
    [requestPermissionAndPopulateDevices] never throws and stores the static
    message exactly when the acquisition or the enumeration fails;
    [requestPermissionAndStartDevices] never throws and stores the static
    message whenever [getUserMedia] is missing or the acquisition fails;
    neither ever stores any other error value. [getCamera] and
    [getMicrophone] do not catch: a rejected acquisition rejects their
    promise with the same error and [userMediaError] stays as it was. *)
Theorem acquisition_failures (s : Sys) :
  (forall gum enum,
     mediaDevicesSupported (world s) = true ->
     outcome (requestPermissionAndPopulateDevices gum enum) s = Returned tt
     /\ userMediaError (st (run (requestPermissionAndPopulateDevices gum enum) s))
        = if is_rejected gum || enumeration_rejected enum
          then Some userMediaErrorMessage else userMediaError (st s))
  /\ (forall mic cam gum webAudio,
        outcome (requestPermissionAndStartDevices mic cam gum webAudio) s = Returned tt
        /\ (negb (mediaDevicesSupported (world s)) || is_rejected gum = true ->
            userMediaError
              (st (run (requestPermissionAndStartDevices mic cam gum webAudio) s))
            = Some userMediaErrorMessage)
        /\ (userMediaError
              (st (run (requestPermissionAndStartDevices mic cam gum webAudio) s))
            = userMediaError (st s)
            \/ userMediaError
                 (st (run (requestPermissionAndStartDevices mic cam gum webAudio) s))
               = Some userMediaErrorMessage))
  /\ (forall id e,
        outcome (getCamera id (Rejected e)) s = Thrown e
        /\ userMediaError (st (run (getCamera id (Rejected e)) s)) = userMediaError (st s))
  /\ (forall id e webAudio,
        outcome (getMicrophone id (Rejected e) webAudio) s = Thrown e
        /\ userMediaError (st (run (getMicrophone id (Rejected e) webAudio) s))
           = userMediaError (st s)).
Proof.
  split; [|split; [|split]].
  - intros gum enum Hsup. unfold outcome, run.
    destruct gum as [e|kinds].
    + rewrite (populate_acquisition_rejected s e enum Hsup). now split.
    + destruct enum as [e|devices].
      * rewrite (populate_enumeration_rejected s kinds e Hsup). now split.
      * rewrite (populate_resolved s kinds devices Hsup). now split.
  - intros mic cam gum webAudio. unfold outcome, run.
    destruct (mediaDevicesSupported (world s)) eqn:Hsup.
    + destruct gum as [e|kinds].
      * rewrite (start_rejected s mic cam e webAudio Hsup).
        split; [reflexivity|]. split; [reflexivity|]. now right.
      * rewrite (start_resolved s mic cam kinds webAudio Hsup).
        pose proof (start_loop_quiet kinds (length (heap (world s)))
                      (start_acquired mic cam kinds s)) as Hquiet.
        destruct (start_loop _ kinds _) as [r s0]. cbn [snd] in Hquiet.
        destruct (start_caught_quiet _ s0 r Hquiet)
          as [_ [_ [_ [_ [Herr [Hout _]]]]]].
        split; [exact Hout|]. split; [discriminate|exact Herr].
    + rewrite (start_unsupported s mic cam gum webAudio Hsup).
      split; [reflexivity|]. split; [reflexivity|]. now right.
  - intros id e. unfold outcome, run. rewrite getCamera_rejected. now split.
  - intros id e webAudio. unfold outcome, run. rewrite getMicrophone_rejected.
    now split.
Qed.

(** C2 as stated fails for [getCamera]: on a fresh provider a denied
    camera rejects the promise of [getCamera] and no error is stored. *)
Lemma getCamera_failure_escapes :
  outcome (getCamera "camera-1" (Rejected denied)) fresh = Thrown denied
  /\ userMediaError (st (run (getCamera "camera-1" (Rejected denied)) fresh)) = None.
Proof. split; reflexivity. Qed.

(** *** Switching the camera *)

Lemma changeActiveCamera_no_camera (render : State) (s : Sys) (id : string)
    (gum : Acquisition) :
  activeCamera render = None ->
  changeActiveCamera render id gum s = getCamera id gum s.
Proof.
  intros Hnone. unfold changeActiveCamera.
  exact (bind_returned _ (fun _ => getCamera id gum) _ _ _
           (stopActiveCamera_no_camera render s Hnone)).
Qed.


Lemma changeActiveCamera_unwrapped (render : State) (s : Sys) (c : LocalTrack)
    (id : string) (gum : Acquisition) :
  activeCamera render = Some c -> (forall r, track c <> JsTrack r) ->
  changeActiveCamera render id gum s
  = (Thrown TypeError, record [CallLocalTrackStop c] s).
Proof.
  intros Hc Hr. unfold changeActiveCamera.
  apply bind_thrown, stopActiveCamera_unwrapped; assumption.
Qed.

Lemma getCamera_trace (s : Sys) (id : string) (gum : Acquisition) :
  trace (world (run (getCamera id gum) s))
  = trace (world s) ++ [CallSdkGetUserMedia (camera_options id)].
Proof. destruct gum; reflexivity. Qed.

Lemma calls_getCamera (s : Sys) (id : string) (gum : Acquisition) :
  calls (getCamera id gum) s = [CallSdkGetUserMedia (camera_options id)].
Proof. unfold calls. rewrite getCamera_trace. apply drop_app_length. Qed.






(** *** Running tracks *)

Lemma filter_ext_elem {A} (P R : A -> Prop) `{!forall x, Decision (P x)}
    `{!forall x, Decision (R x)} (l : list A) :
  (forall x, x ∈ l -> P x <-> R x) -> filter P l = filter R l.
Proof.
  induction l as [|x l IH]; intros Hiff; [reflexivity|].
  assert (Hl : filter P l = filter R l).
  { apply IH. intros y Hy. apply Hiff. now right. }
  pose proof (Hiff x ltac:(left)) as Hx.
  unfold filter in *. cbn [list_filter].
  destruct (decide (P x)) as [HP|HP], (decide (R x)) as [HR|HR];
    try (f_equal; exact Hl); tauto.
Qed.

Lemma live_of_old (k : TrackKind) (h l : list MediaStreamTrack) (r : TrackRef) :
  r < length h -> live_of k (h ++ l) r <-> live_of k h r.
Proof. intros Hr. unfold live_of. now rewrite lookup_app_l by exact Hr. Qed.

Lemma live_new (k : TrackKind) (pre : list MediaStreamTrack) (kinds : list TrackKind) :
  filter (live_of k (pre ++ map newTrack kinds)) (seq (length pre) (length kinds))
  = acquired k (length pre) kinds.
Proof.
  revert pre. induction kinds as [|k' kinds IH]; intros pre; [reflexivity|].
  cbn [length seq map acquired].
  assert (Hrest :
    filter (live_of k (pre ++ newTrack k' :: map newTrack kinds))
      (seq (S (length pre)) (length kinds))
    = acquired k (S (length pre)) kinds).
  { specialize (IH (pre ++ [newTrack k'])).
    rewrite <- app_assoc, length_app in IH. cbn in IH.
    now rewrite Nat.add_1_r in IH. }
  rewrite filter_cons, Hrest.
  assert (Hhere : (pre ++ newTrack k' :: map newTrack kinds) !! length pre
                  = Some (newTrack k')).
  { now rewrite lookup_app_r, Nat.sub_diag by lia. }
  destruct (decide (live_of k (pre ++ newTrack k' :: map newTrack kinds) (length pre)))
    as [[Hk _]|Hnot].
  - rewrite Hhere in Hk. injection Hk as Hk. cbn in Hk.
    now rewrite decide_True by exact Hk.
  - destruct (decide (k' = k)) as [->|Hne]; [|reflexivity].
    destruct Hnot. unfold live_of. now rewrite Hhere.
Qed.

(** The running tracks after an acquisition: those that were running and
    the new ones. *)
Lemma live_tracks_acquired (k : TrackKind) (h : list MediaStreamTrack)
    (kinds : list TrackKind) :
  live_tracks k (h ++ map newTrack kinds)
  = live_tracks k h ++ acquired k (length h) kinds.
Proof.
  unfold live_tracks. rewrite length_app, length_map, seq_app, filter_app.
  cbn [Nat.add]. rewrite live_new. f_equal.
  apply filter_ext_elem. intros r [_ Hr]%elem_of_seq. apply live_of_old. lia.
Qed.

Lemma start_heap (s : Sys) (mic cam : option string) (kinds : list TrackKind)
    (webAudio : WebAudio) :
  mediaDevicesSupported (world s) = true ->
  heap (world (run (requestPermissionAndStartDevices mic cam (Resolved kinds) webAudio) s))
  = heap (world s) ++ map newTrack kinds.
Proof.
  intros Hsup. unfold run. rewrite (start_resolved s mic cam kinds webAudio Hsup).
  pose proof (start_loop_quiet kinds (length (heap (world s)))
                (start_acquired mic cam kinds s)) as Hquiet.
  destruct (start_loop _ kinds _) as [r s0]. cbn [snd] in Hquiet.
  now destruct (start_caught_quiet _ s0 r Hquiet) as [-> _].
Qed.

(** C3, as the code has it. The two slots are single optional values, so
    each holds at most one handle. The tracks that are running are not
    bounded by that: [getCamera], [getMicrophone] and
    [requestPermissionAndStartDevices] stop no track, so that after a
    resolved acquisition the running tracks of either kind are those that
    were running, followed by the new tracks of the kind. *)
Theorem acquiring_stops_nothing (s : Sys) (k : TrackKind) (kinds : list TrackKind) :
  (forall id,
     live_tracks k (heap (world (run (getCamera id (Resolved kinds)) s)))
     = live_tracks k (heap (world s)) ++ acquired k (length (heap (world s))) kinds)
  /\ (forall id webAudio,
        live_tracks k (heap (world (run (getMicrophone id (Resolved kinds) webAudio) s)))
        = live_tracks k (heap (world s)) ++ acquired k (length (heap (world s))) kinds)
  /\ (forall mic cam webAudio,
        mediaDevicesSupported (world s) = true ->
        live_tracks k
          (heap (world (run (requestPermissionAndStartDevices mic cam (Resolved kinds)
                               webAudio) s)))
        = live_tracks k (heap (world s)) ++ acquired k (length (heap (world s))) kinds).
Proof.
  split; [|split].
  - intros id. unfold run. rewrite getCamera_resolved. apply live_tracks_acquired.
  - intros id webAudio. unfold run. rewrite getMicrophone_resolved.
    apply live_tracks_acquired.
  - intros mic cam webAudio Hsup. rewrite (start_heap s mic cam kinds webAudio Hsup).
    apply live_tracks_acquired.
Qed.

(** C3 as stated fails: two starts in a row on a fresh provider, each
    answered with a camera track, leave two camera tracks running, of which
    the slot holds the handle built for the second; and two
    [changeActiveCamera] calls in a row leave two camera tracks running
    and no camera in the slot. *)
Lemma two_cameras_running :
  live_tracks video (heap (world two_cameras)) = [0; 1]
  /\ activeCamera (st two_cameras) = Some (camera_of 1)
  /\ live_tracks video (heap (world switched)) = [0; 1]
  /\ activeCamera (st switched) = None.
Proof. repeat split; reflexivity. Qed.

(** *** Running tracks under heap changes *)

Lemma live_of_lookup (k : TrackKind) (h : list MediaStreamTrack) (r : TrackRef) :
  live_of k h r <-> exists t, h !! r = Some t /\ kind t = k /\ readyState t = live.
Proof.
  unfold live_of. split.
  - intros [Hk Hl]. destruct (h !! r) as [t|]; [|discriminate].
    exists t. simpl in *. split; [reflexivity|]. split; congruence.
  - intros [t [-> [Hk Hl]]]. simpl. split; congruence.
Qed.

Lemma filter_none {A} (P : A -> Prop) `{forall x, Decision (P x)} (l : list A) :
  (forall x, x ∈ l -> ~ P x) -> filter P l = [].
Proof.
  intros Hnone. apply elem_of_nil_inv. intros x [HP Hin]%list_elem_of_filter.
  apply (Hnone x Hin HP).
Qed.

Lemma live_of_in_range (k : TrackKind) (h : list MediaStreamTrack) (r : TrackRef) :
  live_of k h r -> r < length h.
Proof.
  intros [t [Ht _]]%live_of_lookup. apply lookup_lt_Some in Ht. exact Ht.
Qed.

Lemma live_tracks_upto (k : TrackKind) (h : list MediaStreamTrack) (m : nat) :
  filter (live_of k h) (seq 0 (length h + m)) = live_tracks k h.
Proof.
  rewrite seq_app, filter_app. unfold live_tracks.
  rewrite (filter_none (live_of k h) (seq (0 + length h) m)); [apply app_nil_r|].
  intros r [Hge _]%elem_of_seq Hlive%live_of_in_range. lia.
Qed.

(** Heaps with the same running tracks of a kind list the same tracks. *)
Lemma live_tracks_same (k : TrackKind) (h h' : list MediaStreamTrack) :
  (forall r, live_of k h' r <-> live_of k h r) ->
  live_tracks k h' = live_tracks k h.
Proof.
  intros Hiff.
  rewrite <- (live_tracks_upto k h' (length h)), <- (live_tracks_upto k h (length h')).
  rewrite (Nat.add_comm (length h) (length h')).
  apply list_filter_iff, Hiff.
Qed.

Lemma dummy_acquired_old (kinds : list TrackKind) (h : list MediaStreamTrack)
    (r : TrackRef) (t : MediaStreamTrack) :
  h !! r = Some t -> dummy_acquired kinds h !! r = Some t.
Proof.
  intros Ht. unfold dummy_acquired. rewrite lookup_stop_all.
  rewrite decide_False.
  - rewrite lookup_app_l by (apply lookup_lt_is_Some; now exists t).
    now rewrite Ht.
  - intros [Hge _]%elem_of_seq. apply lookup_lt_Some in Ht. lia.
Qed.

Lemma live_of_dummy_iff (k : TrackKind) (kinds : list TrackKind)
    (h : list MediaStreamTrack) (r : TrackRef) :
  live_of k (dummy_acquired kinds h) r <-> live_of k h r.
Proof.
  unfold live_of, dummy_acquired. rewrite lookup_stop_all.
  destruct (decide (r ∈ seq (length h) (length kinds))) as [Hin|Hnin].
  - apply elem_of_seq in Hin. rewrite (lookup_ge_None_2 h r) by lia.
    destruct ((h ++ map newTrack kinds) !! r); cbn; split; intros [_ H];
      discriminate.
  - destruct (decide (r < length h)) as [Hlt|Hge].
    + rewrite lookup_app_l by exact Hlt. now destruct (h !! r).
    + rewrite (lookup_ge_None_2 h r) by lia.
      rewrite (lookup_ge_None_2 (h ++ map newTrack kinds) r); [reflexivity|].
      rewrite length_app, length_map.
      destruct (decide (r < length h + length kinds)) as [Hlt|]; [|lia].
      destruct Hnin. apply elem_of_seq. lia.
Qed.

Lemma populate_keeps_tracks (s : Sys) (gum : Acquisition) (enum : Enumeration)
    (r : TrackRef) (t : MediaStreamTrack) :
  heap (world s) !! r = Some t ->
  heap (world (run (requestPermissionAndPopulateDevices gum enum) s)) !! r = Some t.
Proof.
  intros Ht. unfold run. destruct (mediaDevicesSupported (world s)) eqn:Hsup.
  - destruct gum as [e|kinds].
    + now rewrite (populate_acquisition_rejected s e enum Hsup).
    + destruct enum as [e|devices].
      * rewrite (populate_enumeration_rejected s kinds e Hsup).
        now apply dummy_acquired_old.
      * rewrite (populate_resolved s kinds devices Hsup).
        now apply dummy_acquired_old.
  - now rewrite (populate_unsupported s gum enum Hsup).
Qed.

(** X5. Asking for permission and listing the devices leaves the devices in
    use alone: whatever the browser answers, the active camera, the active
    microphone, the analyser and the remembered device ids are as before,
    every track that existed is as it was, and the running camera and
    microphone tracks are the same. *)
Theorem populate_leaves_devices (s : Sys) (gum : Acquisition) (enum : Enumeration) :
  activeCamera (st (run (requestPermissionAndPopulateDevices gum enum) s))
  = activeCamera (st s)
  /\ activeMicrophone (st (run (requestPermissionAndPopulateDevices gum enum) s))
     = activeMicrophone (st s)
  /\ localAudioAnalyser (st (run (requestPermissionAndPopulateDevices gum enum) s))
     = localAudioAnalyser (st s)
  /\ cameraDeviceId (st (run (requestPermissionAndPopulateDevices gum enum) s))
     = cameraDeviceId (st s)
  /\ microphoneDeviceId (st (run (requestPermissionAndPopulateDevices gum enum) s))
     = microphoneDeviceId (st s)
  /\ (forall r t, heap (world s) !! r = Some t ->
        heap (world (run (requestPermissionAndPopulateDevices gum enum) s)) !! r
        = Some t)
  /\ forall k,
       live_tracks k (heap (world (run (requestPermissionAndPopulateDevices gum enum) s)))
       = live_tracks k (heap (world s)).
Proof.
  unfold run. destruct (mediaDevicesSupported (world s)) eqn:Hsup.
  - destruct gum as [e|kinds].
    + rewrite (populate_acquisition_rejected s e enum Hsup). cbn.
      repeat (split; [reflexivity|]). split; [intros r t Ht; exact Ht|reflexivity].
    + destruct enum as [e|devices].
      * rewrite (populate_enumeration_rejected s kinds e Hsup). cbn.
        repeat (split; [reflexivity|]). split.
        -- intros r t. apply dummy_acquired_old.
        -- intros k. apply live_tracks_same. intros r. apply live_of_dummy_iff.
      * rewrite (populate_resolved s kinds devices Hsup). cbn.
        repeat (split; [reflexivity|]). split.
        -- intros r t. apply dummy_acquired_old.
        -- intros k. apply live_tracks_same. intros r. apply live_of_dummy_iff.
  - rewrite (populate_unsupported s gum enum Hsup). cbn.
    repeat (split; [reflexivity|]). split; [intros r t Ht; exact Ht|reflexivity].
Qed.

(** *** The level stays within the bytes *)

Lemma byte_value_range (b : Byte.byte) : (0 <= byte_value b <= 255)%Z.
Proof.
  unfold byte_value. pose proof (Byte.to_N_bounded b) as Hb. lia.
Qed.

Lemma sum_between (values : list Z) (p : Z) :
  (forall v, v ∈ values -> (0 <= v <= p)%Z) ->
  (0 <= foldr Z.add 0 values <= Z.of_nat (length values) * p)%Z.
Proof.
  induction values as [|v values IH]; intros Hall; cbn [foldr length].
  - lia.
  - assert (Hv : (0 <= v <= p)%Z) by (apply Hall; left).
    assert (Hrest : (0 <= foldr Z.add 0 values <= Z.of_nat (length values) * p)%Z).
    { apply IH. intros w Hw. apply Hall. now right. }
    lia.
Qed.

Lemma mean_between (values : list Z) (p : Z) :
  values <> [] ->
  (forall v, v ∈ values -> (0 <= v <= p)%Z) ->
  (0 <= mean values)%Q /\ (mean values <= inject_Z p)%Q.
Proof.
  intros Hne Hall. pose proof (sum_between values p Hall) as [Hlo Hhi].
  unfold mean.
  assert (Hlen : (0 < inject_Z (Z.of_nat (length values)))%Q).
  { change 0%Q with (inject_Z 0). rewrite <- Zlt_Qlt.
    destruct values; [congruence|]. cbn [length]. lia. }
  split.
  - apply Qle_shift_div_l; [exact Hlen|]. rewrite Qmult_0_l.
    change 0%Q with (inject_Z 0). now rewrite <- Zle_Qle.
  - apply Qle_shift_div_r; [exact Hlen|].
    rewrite <- inject_Z_mult, <- Zle_Qle. lia.
Qed.

(** X7. Through the callback of any render and in any state of the
    system, a level that is not null is made of two finite numbers within
    the range of a byte: the average is at least 0, the peak is at most
    255, and the average is at most the peak. *)
Theorem level_within_bytes (render : State) (s : Sys) (spectrum : list Byte.byte)
    (l : Level) :
  outcome (getActiveMicrophoneLevel render spectrum) s = Returned (Some l) ->
  exists avg peak,
    avgDb l = Finite avg /\ peakDb l = Finite (inject_Z peak)
    /\ (0 <= avg)%Q /\ (avg <= inject_Z peak)%Q /\ (peak <= 255)%Z.
Proof.
  intros Hout.
  destruct (level_of_render render s spectrum) as [_ [Hnull Hlevel]].
  destruct (activeMicrophone render) as [m|] eqn:Hm.
  2:{ assert (Hnone : outcome (getActiveMicrophoneLevel render spectrum) s
                      = Returned None) by (apply Hnull; now left).
      congruence. }
  destruct (localAudioAnalyser render) as [a|] eqn:Ha.
  2:{ assert (Hnone : outcome (getActiveMicrophoneLevel render spectrum) s
                      = Returned None) by (apply Hnull; now right).
      congruence. }
  destruct (Hlevel m a eq_refl eq_refl) as [_ [avg [peak [Hval [Havg [Hin Hmax]]]]]].
  rewrite Hval in Hout. injection Hout as <-.
  exists avg, peak. split; [reflexivity|]. split; [reflexivity|].
  set (values := map byte_value
                   (getByteFrequencyData (Pos.to_nat (frequencyBinCount a)) spectrum))
    in *.
  assert (Hrange : forall v, v ∈ values -> (0 <= v <= 255)%Z).
  { intros v [b [-> _]]%list_elem_of_fmap. apply byte_value_range. }
  assert (Hne : values <> []).
  { intros Hnil. rewrite Hnil in Hin. now apply not_elem_of_nil in Hin. }
  destruct (mean_between values peak Hne) as [Hlo Hhi].
  { intros v Hv. split; [apply (Hrange v Hv)|apply (Hmax v Hv)]. }
  rewrite Havg. split; [exact Hlo|]. split; [exact Hhi|].
  apply (Hrange peak Hin).
Qed.

(** *** Starting the devices: what sticks *)

Lemma start_world (s : Sys) (mic cam : option string) (gum : Acquisition)
    (webAudio : WebAudio) :
  mediaDevicesSupported (world s) = true ->
  mediaDevicesSupported
    (world (run (requestPermissionAndStartDevices mic cam gum webAudio) s))
  = true
  /\ defaultMicrophoneCameraOptions
       (world (run (requestPermissionAndStartDevices mic cam gum webAudio) s))
     = start_options mic cam (defaultMicrophoneCameraOptions (world s)).
Proof.
  intros Hsup. unfold run. destruct gum as [e|kinds].
  - rewrite (start_rejected s mic cam e webAudio Hsup). now split.
  - rewrite (start_resolved s mic cam kinds webAudio Hsup).
    pose proof (start_loop_quiet kinds (length (heap (world s)))
                  (start_acquired mic cam kinds s)) as Hquiet.
    destruct (start_loop _ kinds _) as [r s0]. cbn [snd] in Hquiet.
    destruct (start_caught_quiet _ s0 r Hquiet) as [_ [-> [-> _]]].
    now split.
Qed.

Lemma populate_first_call (s : Sys) (gum : Acquisition) (enum : Enumeration) :
  mediaDevicesSupported (world s) = true ->
  exists rest,
    calls (requestPermissionAndPopulateDevices gum enum) s
    = CallGetUserMedia (defaultMicrophoneCameraOptions (world s)) :: rest.
Proof.
  intros Hsup. destruct gum as [e|kinds].
  - eexists.
    apply (calls_of_run _ _ _ _ _ (populate_acquisition_rejected s e enum Hsup)).
    reflexivity.
  - destruct enum as [e|devices].
    + eexists.
      apply (calls_of_run _ _ _ _ _ (populate_enumeration_rejected s kinds e Hsup)).
      reflexivity.
    + eexists.
      apply (calls_of_run _ _ _ _ _ (populate_resolved s kinds devices Hsup)).
      reflexivity.
Qed.

(** X8. The device ids given to [requestPermissionAndStartDevices] are written
    into the shared options object and stay there: where [getUserMedia]
    exists, after the call the object names the given devices, a later
    call without ids leaves it as it is, and a later
    [requestPermissionAndPopulateDevices] asks the browser with it. *)
Theorem start_devices_stick (s : Sys) (mic cam : option string) (gum : Acquisition)
    (webAudio : WebAudio) :
  mediaDevicesSupported (world s) = true ->
  let s' := run (requestPermissionAndStartDevices mic cam gum webAudio) s in
  (forall id, truthy_id mic = Some id ->
     opt_audio (defaultMicrophoneCameraOptions (world s')) = Device id)
  /\ (forall id, truthy_id cam = Some id ->
        opt_video (defaultMicrophoneCameraOptions (world s')) = Device id)
  /\ (forall gum' webAudio',
        defaultMicrophoneCameraOptions
          (world (run (requestPermissionAndStartDevices None None gum' webAudio') s'))
        = defaultMicrophoneCameraOptions (world s'))
  /\ forall gum' enum,
       exists rest,
         calls (requestPermissionAndPopulateDevices gum' enum) s'
         = CallGetUserMedia (defaultMicrophoneCameraOptions (world s')) :: rest.
Proof.
  intros Hsup s'. subst s'.
  destruct (start_world s mic cam gum webAudio Hsup) as [Hsup' Hopts].
  split; [|split; [|split]].
  - intros id Hid. rewrite Hopts. unfold start_options. rewrite Hid.
    now destruct (truthy_id cam).
  - intros id Hid. rewrite Hopts. unfold start_options. now rewrite Hid.
  - intros gum' webAudio'.
    now destruct (start_world _ None None gum' webAudio' Hsup') as [_ ->].
  - intros gum' enum. apply (populate_first_call _ gum' enum Hsup').
Qed.

(** *** Properties kept by every callback *)

Section Preserves.

Variable P : Sys -> Prop.

Lemma preserves_ret {A} (a : A) : preserves P (ret a).
Proof. intros s Hs. exact Hs. Qed.

Lemma preserves_throw {A} (e : JsError) : preserves P (@throw A e).
Proof. intros s Hs. exact Hs. Qed.

Lemma preserves_read {A} (f : Sys -> A) : preserves P (read f).
Proof. intros s Hs. exact Hs. Qed.

Lemma preserves_bind {A B} (m : M A) (k : A -> M B) :
  preserves P m -> (forall a, preserves P (k a)) -> preserves P (bind m k).
Proof.
  intros Hm Hk s Hs. specialize (Hm s Hs). unfold run, bind in *.
  destruct (m s) as [[a|e] s']; [apply (Hk a s' Hm)|exact Hm].
Qed.

Lemma preserves_try_catch {A} (body : M A) (handler : JsError -> M A) :
  preserves P body -> (forall e, preserves P (handler e)) ->
  preserves P (try_catch body handler).
Proof.
  intros Hbody Hhandler s Hs. specialize (Hbody s Hs). unfold run, try_catch in *.
  destruct (body s) as [[a|e] s']; [exact Hbody|apply (Hhandler e s' Hbody)].
Qed.

Lemma preserves_forEach {A} (l : list A) (f : A -> M unit) :
  (forall x, preserves P (f x)) -> preserves P (forEach l f).
Proof.
  intros Hf. induction l as [|x l IH]; cbn [forEach].
  - apply preserves_ret.
  - apply preserves_bind; [apply Hf|intros _; exact IH].
Qed.

(** What every callback keeps, through the callbacks of whatever renders,
    every sequence of calls keeps. *)
Lemma preserved_by_steps :
  (forall gum enum, preserves P (requestPermissionAndPopulateDevices gum enum)) ->
  (forall mic cam gum webAudio,
     preserves P (requestPermissionAndStartDevices mic cam gum webAudio)) ->
  (forall id gum, preserves P (getCamera id gum)) ->
  (forall render, preserves P (stopActiveCamera render)) ->
  (forall render id gum, preserves P (changeActiveCamera render id gum)) ->
  (forall id gum webAudio, preserves P (getMicrophone id gum webAudio)) ->
  (forall render, preserves P (muteActiveMicrophone render)) ->
  (forall render, preserves P (unMuteActiveMicrophone render)) ->
  (forall render id gum webAudio,
     preserves P (changeActiveMicrophone render id gum webAudio)) ->
  (forall render spectrum, preserves P (getActiveMicrophoneLevel render spectrum)) ->
  forall ops s, P s -> P (steps ops s).
Proof.
  intros H1 H2 H3 H4 H5 H6 H7 H8 H9 H10 ops. unfold steps.
  induction ops as [|o ops IH]; intros s Hs; cbn [fold_left]; [exact Hs|].
  apply IH. destruct o; cbn [step].
  - now apply H1.
  - now apply H2.
  - now apply H3.
  - now apply H4.
  - now apply H5.
  - now apply H6.
  - now apply H7.
  - now apply H8.
  - now apply H9.
  - now apply H10.
Qed.

End Preserves.

Section StateOnly.

(** Properties of the provider state alone: the world cannot break them. *)
Variable Q : State -> Prop.

Lemma state_only_emit (e : Event) : preserves (fun s => Q (st s)) (emit e).
Proof. intros s Hs. exact Hs. Qed.

Lemma state_only_modify_heap f : preserves (fun s => Q (st s)) (modify_heap f).
Proof. intros s Hs. exact Hs. Qed.

Lemma state_only_modify_options f : preserves (fun s => Q (st s)) (modify_options f).
Proof. intros s Hs. exact Hs. Qed.

Lemma state_only_modify_state (f : State -> State) :
  (forall t, Q t -> Q (f t)) -> preserves (fun s => Q (st s)) (modify_state f).
Proof. intros Hf s Hs. apply Hf, Hs. Qed.

End StateOnly.

Ltac unfold_callbacks :=
  unfold requestPermissionAndPopulateDevices, requestPermissionAndStartDevices,
    startTrack, getCamera, stopActiveCamera, changeActiveCamera, getMicrophone,
    muteActiveMicrophone, unMuteActiveMicrophone, changeActiveMicrophone,
    getActiveMicrophoneLevel, assign_enabled, setupLocalMicrophoneAnalyser,
    getUserMedia, sdk_getUserMedia, enumerateDevices, MediaStreamTrack_stop,
    LocalTrack_stop, getVideoTracks, getAudioTracks,
    setMicrophoneDevices, setActiveMicrophone, setCameraDevices, setActiveCamera,
    setUserMediaError, setCameraDeviceId, setMicrophoneDeviceId.

Ltac keeps_step prim :=
  first
    [ apply preserves_ret | apply preserves_throw | apply preserves_read
    | prim
    | apply preserves_bind; [|intros ?]
    | apply preserves_try_catch; [|intros ?]
    | apply preserves_forEach; intros ?
    | match goal with
      | |- preserves _ (match ?x with _ => _ end) => destruct x
      end ].

Ltac keeps prim :=
  repeat first
    [ keeps_step prim
    | progress unfold_callbacks
    | progress unfold setLocalAudioAnalyser
    | progress cbv zeta ].

Ltac state_only Q side :=
  first
    [ apply (state_only_emit Q) | apply (state_only_modify_heap Q)
    | apply (state_only_modify_options Q)
    | apply (state_only_modify_state Q); side ].

Ltac error_side :=
  unfold error_shown, error_static; intros t Ht; cbn;
  first [ exact Ht | reflexivity | right; reflexivity ].

(** X10. The error slot is never cleared and never holds anything but the
    static message: along any sequence of calls, starting anywhere, an
    error that is shown stays shown, and in every state of the provider
    the slot is undefined or holds the static message. *)
Theorem error_is_sticky (ops : list Op) (s : Sys) :
  (userMediaError (st s) = Some userMediaErrorMessage ->
   userMediaError (st (steps ops s)) = Some userMediaErrorMessage)
  /\ (reachable s ->
      userMediaError (st s) = None
      \/ userMediaError (st s) = Some userMediaErrorMessage).
Proof.
  split.
  - apply (preserved_by_steps (fun s => error_shown (st s)));
      intros; keeps ltac:(state_only error_shown error_side).
  - intros [supported [ops' ->]].
    apply (preserved_by_steps (fun s => error_static (st s)));
      [intros; keeps ltac:(state_only error_static error_side)..|].
    now left.
Qed.

Ltac held_side :=
  unfold microphone_held; intros t Ht; cbn;
  first [ exact Ht | eexists; reflexivity ].

(** After [setActiveMicrophone] of a handle, whatever keeps the
    microphone keeps "an analyser only with a microphone". *)
Lemma analyser_after_microphone {B} (m : LocalTrack) (k : unit -> M B) :
  (forall u, preserves (fun s => microphone_held (st s)) (k u)) ->
  preserves (fun s => analyser_has_microphone (st s))
    (bind (setActiveMicrophone (Some m)) k).
Proof.
  intros Hk s _ _. unfold run, bind. cbn.
  apply (Hk tt). eexists. reflexivity.
Qed.

Ltac analyser_side :=
  unfold analyser_has_microphone; intros t Ht; cbn; exact Ht.

Ltac analyser_prim :=
  first
    [ apply analyser_after_microphone; intros ?;
      keeps ltac:(state_only microphone_held held_side)
    | state_only analyser_has_microphone analyser_side ].

(** X11. No callback releases the microphone: once a microphone is active, one
    is active after any sequence of calls. In every state of the provider
    an analyser is only there together with an active microphone, so the
    level is null exactly when no analyser has been set up. *)
Theorem microphone_is_kept (ops : list Op) (s : Sys) :
  (is_Some (activeMicrophone (st s)) ->
   is_Some (activeMicrophone (st (steps ops s))))
  /\ (reachable s ->
      (is_Some (localAudioAnalyser (st s)) -> is_Some (activeMicrophone (st s)))
      /\ forall spectrum,
           outcome (getActiveMicrophoneLevel (st s) spectrum) s = Returned None
           <-> localAudioAnalyser (st s) = None).
Proof.
  split.
  - apply (preserved_by_steps (fun s => microphone_held (st s)));
      intros; keeps ltac:(state_only microphone_held held_side).
  - intros [supported [ops' ->]].
    assert (Han : analyser_has_microphone (st (steps ops' (initialSys supported)))).
    { apply (preserved_by_steps (fun s => analyser_has_microphone (st s)));
        [intros; keeps analyser_prim..|].
      intros [a Ha]. discriminate. }
    split; [exact Han|]. intros spectrum.
    destruct (level_of_render
                (st (steps ops' (initialSys supported)))
                (steps ops' (initialSys supported)) spectrum)
      as [_ [Hnull _]].
    rewrite Hnull. split; [|now right].
    intros [Hmic|Hnone]; [|exact Hnone].
    destruct (localAudioAnalyser (st (steps ops' (initialSys supported)))) as [a|] eqn:Ha;
      [|reflexivity].
    destruct Han as [m Hm]; [now exists a|]. congruence.
Qed.

Ltac devices_side :=
  unfold devices_sorted; intros t [Hmic Hcam]; cbn; split;
  first [ assumption
        | apply Forall_forall; intros d [Hd _]%list_elem_of_filter; exact Hd ].

(** X13. In every state of the provider the list of microphones holds only
    devices of kind "audioinput" and the list of cameras only devices of
    kind "videoinput". *)
Theorem device_lists_sorted (s : Sys) :
  reachable s ->
  Forall (fun device => device_kind device = audioinput) (microphoneDevices (st s))
  /\ Forall (fun device => device_kind device = videoinput) (cameraDevices (st s)).
Proof.
  intros [supported [ops ->]].
  apply (preserved_by_steps (fun s => devices_sorted (st s)));
    [intros; keeps ltac:(state_only devices_sorted devices_side)..|].
  split; constructor.
Qed.

(** *** A browser without [getUserMedia] *)

(** X17. Where [navigator.mediaDevices.getUserMedia] is missing the two
    permission callbacks part ways: [requestPermissionAndPopulateDevices]
    throws a [TypeError] and leaves everything as it was, with no error
    shown, while [requestPermissionAndStartDevices] returns, logs the
    error, shows the static message and calls nothing in the browser. *)
Theorem without_getUserMedia (s : Sys) (mic cam : option string)
    (gum : Acquisition) (enum : Enumeration) (webAudio : WebAudio) :
  mediaDevicesSupported (world s) = false ->
  outcome (requestPermissionAndPopulateDevices gum enum) s = Thrown TypeError
  /\ run (requestPermissionAndPopulateDevices gum enum) s = s
  /\ outcome (requestPermissionAndStartDevices mic cam gum webAudio) s = Returned tt
  /\ calls (requestPermissionAndStartDevices mic cam gum webAudio) s
     = [ConsoleError (Error unsupportedMessage);
        SetUserMediaError userMediaErrorMessage]
  /\ userMediaError (st (run (requestPermissionAndStartDevices mic cam gum webAudio) s))
     = Some userMediaErrorMessage
  /\ heap (world (run (requestPermissionAndStartDevices mic cam gum webAudio) s))
     = heap (world s)
  /\ defaultMicrophoneCameraOptions
       (world (run (requestPermissionAndStartDevices mic cam gum webAudio) s))
     = defaultMicrophoneCameraOptions (world s).
Proof.
  intros Hsup.
  pose proof (populate_unsupported s gum enum Hsup) as Hpop.
  pose proof (start_unsupported s mic cam gum webAudio Hsup) as Hstart.
  split; [unfold outcome; now rewrite Hpop|].
  split; [unfold run; now rewrite Hpop|].
  split; [unfold outcome; now rewrite Hstart|].
  split; [apply (calls_of_run _ _ _ _ _ Hstart); reflexivity|].
  unfold run. rewrite Hstart. now repeat split.
Qed.

(** *** What the acquiring callbacks leave behind *)

(** X4. [getCamera] never installs a camera. When the acquisition is
    rejected its promise rejects with the same error and nothing has
    changed; when the acquisition resolves, the call of [getVideoTracks]
    on the array the SDK resolved with throws a [TypeError]: the provider
    state is as before, no device id is remembered, and the acquired
    tracks are left behind, live. Through a render without an active
    camera [changeActiveCamera] does exactly the same. *)
Theorem camera_never_installed (s : Sys) (id : string) :
  (forall e,
     outcome (getCamera id (Rejected e)) s = Thrown e
     /\ st (run (getCamera id (Rejected e)) s) = st s
     /\ heap (world (run (getCamera id (Rejected e)) s)) = heap (world s))
  /\ (forall kinds,
        outcome (getCamera id (Resolved kinds)) s = Thrown TypeError
        /\ st (run (getCamera id (Resolved kinds)) s) = st s
        /\ heap (world (run (getCamera id (Resolved kinds)) s))
           = heap (world s) ++ map newTrack kinds)
  /\ (forall gum, calls (getCamera id gum) s = [CallSdkGetUserMedia (camera_options id)])
  /\ (forall render gum,
        activeCamera render = None ->
        changeActiveCamera render id gum s = getCamera id gum s).
Proof.
  split; [|split; [|split]].
  - intros e. unfold outcome, run. rewrite getCamera_rejected. now repeat split.
  - intros kinds. unfold outcome, run. rewrite getCamera_resolved. now repeat split.
  - intros gum. apply calls_getCamera.
  - intros render gum Hnone. now apply changeActiveCamera_no_camera.
Qed.

Lemma changeActiveMicrophone_no_microphone (render : State) (s : Sys) (id : string)
    (gum : Acquisition) (webAudio : WebAudio) :
  activeMicrophone render = None ->
  changeActiveMicrophone render id gum webAudio s = getMicrophone id gum webAudio s.
Proof. intros Hnone. unfold changeActiveMicrophone. now rewrite Hnone. Qed.

Lemma changeActiveMicrophone_unwrapped (render : State) (s : Sys) (m : LocalTrack)
    (id : string) (gum : Acquisition) (webAudio : WebAudio) :
  activeMicrophone render = Some m -> (forall r, track m <> JsTrack r) ->
  changeActiveMicrophone render id gum webAudio s
  = (Thrown TypeError, record [CallLocalTrackStop m] s).
Proof.
  intros Hm Hr. unfold changeActiveMicrophone. rewrite Hm.
  apply bind_thrown, LocalTrack_stop_unwrapped, Hr.
Qed.

Lemma calls_getMicrophone (s : Sys) (id : string) (gum : Acquisition)
    (webAudio : WebAudio) :
  calls (getMicrophone id gum webAudio) s = [CallSdkGetUserMedia (microphone_options id)].
Proof.
  unfold calls.
  replace (trace (world (run (getMicrophone id gum webAudio) s)))
    with (trace (world s) ++ [CallSdkGetUserMedia (microphone_options id)])
    by (now destruct gum).
  apply drop_app_length.
Qed.

(** X3. [getMicrophone] never installs a microphone, and no analyser. When
    the acquisition is rejected its promise rejects with the same error
    and nothing has changed; when it resolves, the call of
    [getAudioTracks] on the array the SDK resolved with throws a
    [TypeError], whatever the Web Audio calls would do: the provider state
    is as before and the acquired tracks are left behind, live. Through a
    render without an active microphone [changeActiveMicrophone] does
    exactly the same. *)
Theorem microphone_never_installed (s : Sys) (id : string) (webAudio : WebAudio) :
  (forall e,
     outcome (getMicrophone id (Rejected e) webAudio) s = Thrown e
     /\ st (run (getMicrophone id (Rejected e) webAudio) s) = st s
     /\ heap (world (run (getMicrophone id (Rejected e) webAudio) s)) = heap (world s))
  /\ (forall kinds,
        outcome (getMicrophone id (Resolved kinds) webAudio) s = Thrown TypeError
        /\ st (run (getMicrophone id (Resolved kinds) webAudio) s) = st s
        /\ heap (world (run (getMicrophone id (Resolved kinds) webAudio) s))
           = heap (world s) ++ map newTrack kinds)
  /\ (forall gum,
        calls (getMicrophone id gum webAudio) s
        = [CallSdkGetUserMedia (microphone_options id)])
  /\ (forall render gum,
        activeMicrophone render = None ->
        changeActiveMicrophone render id gum webAudio s
        = getMicrophone id gum webAudio s).
Proof.
  split; [|split; [|split]].
  - intros e. unfold outcome, run. rewrite getMicrophone_rejected. now repeat split.
  - intros kinds. unfold outcome, run. rewrite getMicrophone_resolved.
    now repeat split.
  - intros gum. apply calls_getMicrophone.
  - intros render gum Hnone. now apply changeActiveMicrophone_no_microphone.
Qed.

(** *** Starting the devices: where the loop stops *)

Lemma start_loop_at_audio (i : nat) (rest : list TrackKind) (n : nat) (s : Sys) :
  fst (start_loop n (replicate i video ++ audio :: rest) s) = Thrown TypeError
  /\ activeMicrophone (st (snd (start_loop n (replicate i video ++ audio :: rest) s)))
     = Some (microphone_of (n + i))
  /\ activeCamera (st (snd (start_loop n (replicate i video ++ audio :: rest) s)))
     = match i with
       | O => activeCamera (st s)
       | S j => Some (camera_of (n + j))
       end
  /\ exists before,
       trace (world (snd (start_loop n (replicate i video ++ audio :: rest) s)))
       = trace (world s) ++ before ++ [SetActiveMicrophone (Some (microphone_of (n + i)))].
Proof.
  revert n s. induction i as [|i IH]; intros n s.
  - cbn. rewrite Nat.add_0_r. repeat split. now exists [].
  - cbn [replicate app start_loop].
    destruct (IH (S n)
                (record [SetActiveCamera (Some (camera_of n))]
                   (update_state (with_activeCamera (Some (camera_of n))) s)))
      as [Hout [Hmic [Hcam [before Htrace]]]].
    replace (n + S i) with (S n + i) by lia.
    split; [exact Hout|]. split; [exact Hmic|]. split.
    + rewrite Hcam. destruct i as [|j]; cbn.
      * now rewrite Nat.add_0_r.
      * do 2 f_equal. lia.
    + exists (SetActiveCamera (Some (camera_of n)) :: before).
      rewrite Htrace. cbn. now rewrite <- app_assoc.
Qed.

Lemma start_loop_videos (i : nat) (n : nat) (s : Sys) :
  fst (start_loop n (replicate i video) s) = Returned tt
  /\ activeMicrophone (st (snd (start_loop n (replicate i video) s)))
     = activeMicrophone (st s)
  /\ activeCamera (st (snd (start_loop n (replicate i video) s)))
     = match i with
       | O => activeCamera (st s)
       | S j => Some (camera_of (n + j))
       end.
Proof.
  revert n s. induction i as [|i IH]; intros n s.
  - cbn. now repeat split.
  - cbn [replicate start_loop].
    destruct (IH (S n)
                (record [SetActiveCamera (Some (camera_of n))]
                   (update_state (with_activeCamera (Some (camera_of n))) s)))
      as [Hout [Hmic Hcam]].
    split; [exact Hout|]. split; [exact Hmic|].
    rewrite Hcam. destruct i as [|j]; cbn.
    + now rewrite Nat.add_0_r.
    + do 2 f_equal. lia.
Qed.

(** X9. A start whose acquisition resolves stops at the first microphone
    track. The camera tracks that come before it are installed one over
    the other; the microphone track is installed, the analyser setup then
    throws on the handle, whatever the Web Audio calls would do, and the
    [catch] block logs the [TypeError] and stores the static message: no
    analyser is set up and what the stream holds after that track is not
    installed. A stream of camera tracks alone is installed without an
    error. In both cases every new track is left live and the call
    returns. *)
Theorem start_stops_at_microphone (s : Sys) (mic cam : option string)
    (webAudio : WebAudio) (i : nat) :
  mediaDevicesSupported (world s) = true ->
  let n := length (heap (world s)) in
  let last_camera :=
    match i with
    | O => activeCamera (st s)
    | S j => Some (camera_of (n + j))
    end in
  (forall rest,
     let m := requestPermissionAndStartDevices mic cam
                (Resolved (replicate i video ++ audio :: rest)) webAudio in
     outcome m s = Returned tt
     /\ activeMicrophone (st (run m s)) = Some (microphone_of (n + i))
     /\ activeCamera (st (run m s)) = last_camera
     /\ localAudioAnalyser (st (run m s)) = localAudioAnalyser (st s)
     /\ userMediaError (st (run m s)) = Some userMediaErrorMessage
     /\ heap (world (run m s))
        = heap (world s) ++ map newTrack (replicate i video ++ audio :: rest)
     /\ exists before,
          calls m s
          = before ++ [SetActiveMicrophone (Some (microphone_of (n + i)));
                       ConsoleError TypeError;
                       SetUserMediaError userMediaErrorMessage])
  /\ (let m := requestPermissionAndStartDevices mic cam
                 (Resolved (replicate i video)) webAudio in
      outcome m s = Returned tt
      /\ activeMicrophone (st (run m s)) = activeMicrophone (st s)
      /\ activeCamera (st (run m s)) = last_camera
      /\ localAudioAnalyser (st (run m s)) = localAudioAnalyser (st s)
      /\ userMediaError (st (run m s)) = userMediaError (st s)
      /\ heap (world (run m s)) = heap (world s) ++ map newTrack (replicate i video)).
Proof.
  intros Hsup n last_camera. subst n last_camera. split.
  - intros rest m. subst m.
    pose proof (start_resolved s mic cam (replicate i video ++ audio :: rest)
                  webAudio Hsup) as Hrun.
    pose proof (start_loop_quiet (replicate i video ++ audio :: rest)
                  (length (heap (world s)))
                  (start_acquired mic cam (replicate i video ++ audio :: rest) s))
      as Hquiet.
    destruct (start_loop_at_audio i rest (length (heap (world s)))
                (start_acquired mic cam (replicate i video ++ audio :: rest) s))
      as [Hout [Hmic [Hcam [before Htrace]]]].
    destruct (start_loop _ (replicate i video ++ audio :: rest) _) as [r s0].
    cbn [fst snd] in *. subst r. cbn [start_caught] in Hrun.
    destruct Hquiet as [Hh _ _ _ Ha _].
    split; [unfold outcome; now rewrite Hrun|].
    split; [unfold run; rewrite Hrun; exact Hmic|].
    split; [unfold run; rewrite Hrun; exact Hcam|].
    split; [unfold run; rewrite Hrun; exact Ha|].
    split; [unfold run; now rewrite Hrun|].
    split; [unfold run; rewrite Hrun; exact Hh|].
    exists (CallGetUserMedia
              (start_options mic cam (defaultMicrophoneCameraOptions (world s)))
            :: before).
    apply (calls_of_run _ _ _ _ _ Hrun). cbn. rewrite Htrace. cbn.
    now rewrite <- !app_assoc.
  - intros m. subst m.
    pose proof (start_resolved s mic cam (replicate i video) webAudio Hsup) as Hrun.
    pose proof (start_loop_quiet (replicate i video) (length (heap (world s)))
                  (start_acquired mic cam (replicate i video) s)) as Hquiet.
    destruct (start_loop_videos i (length (heap (world s)))
                (start_acquired mic cam (replicate i video) s))
      as [Hout [Hmic Hcam]].
    destruct (start_loop _ (replicate i video) _) as [r s0].
    cbn [fst snd] in *. subst r. cbn [start_caught] in Hrun.
    destruct Hquiet as [Hh _ _ He Ha _].
    unfold outcome, run. rewrite Hrun. cbn [fst snd].
    split; [reflexivity|]. split; [exact Hmic|]. split; [exact Hcam|].
    split; [exact Ha|]. split; [exact He|exact Hh].
Qed.

(** *** The handles the provider holds *)

Lemma kind_of_old (h l : list MediaStreamTrack) (r : TrackRef) (k : TrackKind) :
  kind_of h r = Some k -> kind_of (h ++ l) r = Some k.
Proof.
  unfold kind_of. intros Hk.
  destruct (h !! r) as [t|] eqn:Ht; [|discriminate].
  now rewrite (lookup_app_l_Some _ _ _ _ Ht).
Qed.

Lemma kind_of_dummy (kinds : list TrackKind) (h : list MediaStreamTrack)
    (r : TrackRef) (k : TrackKind) :
  kind_of h r = Some k -> kind_of (dummy_acquired kinds h) r = Some k.
Proof.
  unfold kind_of. intros Hk.
  destruct (h !! r) as [t|] eqn:Ht; [|discriminate].
  now rewrite (dummy_acquired_old kinds h r t Ht).
Qed.

Lemma built_for_mono (k : TrackKind) (h h' : list MediaStreamTrack) (t : LocalTrack) :
  (forall r k, kind_of h r = Some k -> kind_of h' r = Some k) ->
  built_for k h t -> built_for k h' t.
Proof. intros Hmono [r [-> Hk]]. exists r. split; [reflexivity|now apply Hmono]. Qed.

Lemma built_by_provider_mono (h h' : list MediaStreamTrack) (t : State) :
  (forall r k, kind_of h r = Some k -> kind_of h' r = Some k) ->
  built_by_provider h t -> built_by_provider h' t.
Proof.
  intros Hmono [Hc [Hm Ha]]. split; [|split; [|exact Ha]].
  - intros c Hcam. apply (built_for_mono _ h); [exact Hmono|now apply Hc].
  - intros m Hmic. apply (built_for_mono _ h); [exact Hmono|now apply Hm].
Qed.

Lemma built_record (es : list Event) (s : Sys) :
  provider_built s -> provider_built (record es s).
Proof. intros H. exact H. Qed.

Lemma built_update_options f (s : Sys) :
  provider_built s -> provider_built (update_options f s).
Proof. intros H. exact H. Qed.

Lemma built_update_heap (g : list MediaStreamTrack -> list MediaStreamTrack) (s : Sys) :
  (forall r k, kind_of (heap (world s)) r = Some k ->
               kind_of (g (heap (world s))) r = Some k) ->
  provider_built s -> provider_built (update_heap g s).
Proof.
  intros Hmono [Hst Hrenders]. split.
  - now apply (built_by_provider_mono (heap (world s))).
  - cbn. eapply Forall_impl; [exact Hrenders|].
    intros t. now apply built_by_provider_mono.
Qed.

Lemma built_update_state (f : State -> State) (s : Sys) :
  built_by_provider (heap (world s)) (f (st s)) ->
  provider_built s -> provider_built (update_state f s).
Proof.
  intros Hf [Hst Hrenders]. split; [exact Hf|].
  cbn. constructor; assumption.
Qed.

(** The setters of the device lists, the error and the device ids leave
    the slots and the analyser alone. *)
Lemma built_update_other (f : State -> State) (s : Sys) :
  (forall t, activeCamera (f t) = activeCamera t) ->
  (forall t, activeMicrophone (f t) = activeMicrophone t) ->
  (forall t, localAudioAnalyser (f t) = localAudioAnalyser t) ->
  provider_built s -> provider_built (update_state f s).
Proof.
  intros Hc Hm Ha Hs. apply built_update_state; [|exact Hs].
  destruct Hs as [[Hcam [Hmic Han]] _].
  split; [|split].
  - intros c. rewrite Hc. apply Hcam.
  - intros m. rewrite Hm. apply Hmic.
  - now rewrite Ha.
Qed.

Lemma built_sdk_acquired (options : CreateLocalMediaOptions) (kinds : list TrackKind)
    (s : Sys) :
  provider_built s -> provider_built (sdk_acquired options kinds s).
Proof.
  intros Hs. apply built_record, built_update_heap; [|exact Hs].
  intros r k. apply kind_of_old.
Qed.

Lemma built_start_loop (kinds : list TrackKind) (n : nat) (s : Sys) :
  (forall i k, kinds !! i = Some k -> kind_of (heap (world s)) (n + i) = Some k) ->
  provider_built s -> provider_built (snd (start_loop n kinds s)).
Proof.
  revert n s. induction kinds as [|k kinds IH]; intros n s Hkinds Hs; [exact Hs|].
  assert (Hk : kind_of (heap (world s)) n = Some k).
  { rewrite <- (Nat.add_0_r n). now apply Hkinds. }
  cbn [start_loop]. destruct k.
  - cbn [snd]. apply built_record, built_update_state; [|exact Hs].
    destruct Hs as [[Hcam [Hmic Han]] _]. split; [exact Hcam|]. split; [|exact Han].
    intros m [= <-]. exists n. now split.
  - apply IH.
    + intros i k Hi. change (kind_of (heap (world s)) (S n + i) = Some k).
      replace (S n + i) with (n + S i) by lia. now apply Hkinds.
    + apply built_record, built_update_state; [|exact Hs].
      destruct Hs as [[Hcam [Hmic Han]] _]. split; [|split; [exact Hmic|exact Han]].
      intros c [= <-]. exists n. now split.
Qed.

Lemma built_start_caught (r : Result unit) (s : Sys) :
  provider_built s -> provider_built (snd (start_caught (r, s))).
Proof.
  intros Hs. destruct r as [[]|e]; [exact Hs|].
  cbn [start_caught snd]. apply built_record, built_update_other; auto.
Qed.

Lemma built_populate (gum : Acquisition) (enum : Enumeration) (s : Sys) :
  provider_built s ->
  provider_built (run (requestPermissionAndPopulateDevices gum enum) s).
Proof.
  intros Hs. unfold run. destruct (mediaDevicesSupported (world s)) eqn:Hsup.
  - destruct gum as [e|kinds].
    + rewrite (populate_acquisition_rejected s e enum Hsup).
      apply built_record, built_update_other; auto.
    + assert (Hheap : provider_built (update_heap (dummy_acquired kinds) s)).
      { apply built_update_heap; [|exact Hs]. intros r k. apply kind_of_dummy. }
      destruct enum as [e|devices].
      * rewrite (populate_enumeration_rejected s kinds e Hsup).
        apply built_record, built_update_other; auto.
      * rewrite (populate_resolved s kinds devices Hsup).
        apply built_record, built_update_other; auto.
        apply built_update_other; auto.
  - now rewrite (populate_unsupported s gum enum Hsup).
Qed.

Lemma built_start (mic cam : option string) (gum : Acquisition) (webAudio : WebAudio)
    (s : Sys) :
  provider_built s ->
  provider_built (run (requestPermissionAndStartDevices mic cam gum webAudio) s).
Proof.
  intros Hs. unfold run. destruct (mediaDevicesSupported (world s)) eqn:Hsup.
  - destruct gum as [e|kinds].
    + rewrite (start_rejected s mic cam e webAudio Hsup).
      apply built_record, built_update_other; auto.
    + rewrite (start_resolved s mic cam kinds webAudio Hsup).
      assert (Hloop : provider_built
                        (snd (start_loop (length (heap (world s))) kinds
                                (start_acquired mic cam kinds s)))).
      { apply built_start_loop.
        - intros i k Hi. cbn. now rewrite kind_of_new.
        - unfold start_acquired. apply built_update_heap.
          + intros r k. apply kind_of_old.
          + exact Hs. }
      destruct (start_loop _ kinds _) as [r s0].
      now apply built_start_caught.
  - rewrite (start_unsupported s mic cam gum webAudio Hsup).
    apply built_record, built_update_other; auto.
Qed.

Lemma built_getCamera (id : string) (gum : Acquisition) (s : Sys) :
  provider_built s -> provider_built (run (getCamera id gum) s).
Proof.
  intros Hs. unfold run. destruct gum as [e|kinds].
  - rewrite getCamera_rejected. exact Hs.
  - rewrite getCamera_resolved. now apply built_sdk_acquired.
Qed.

Lemma built_getMicrophone (id : string) (gum : Acquisition) (webAudio : WebAudio)
    (s : Sys) :
  provider_built s -> provider_built (run (getMicrophone id gum webAudio) s).
Proof.
  intros Hs. unfold run. destruct gum as [e|kinds].
  - rewrite getMicrophone_rejected. exact Hs.
  - rewrite getMicrophone_resolved. now apply built_sdk_acquired.
Qed.

(** Every render a callback can come from holds built handles only. *)
Lemma built_render_at (age : nat) (s : Sys) :
  provider_built s -> built_by_provider (heap (world s)) (render_at age s).
Proof.
  intros [Hst Hrenders]. unfold render_at.
  destruct ((st s :: renders s) !! age) as [t|] eqn:Ht; [|exact Hst].
  apply list_elem_of_lookup_2 in Ht. apply elem_of_cons in Ht as [->|Hin].
  - exact Hst.
  - rewrite Forall_forall in Hrenders. now apply Hrenders.
Qed.

(** What the callbacks that go through a handle do on a render whose
    handles were built by the provider: they throw at the handle. *)
Lemma stopActiveCamera_built (h : list MediaStreamTrack) (render : State) (s : Sys) :
  built_by_provider h render ->
  stopActiveCamera render s
  = match activeCamera render with
    | Some c => (Thrown TypeError, record [CallLocalTrackStop c] s)
    | None => (Returned tt, s)
    end.
Proof.
  intros [Hcam _]. destruct (activeCamera render) as [c|] eqn:Hc.
  - apply (stopActiveCamera_unwrapped render s c Hc).
    apply (built_for_unwrapped video h), Hcam. reflexivity.
  - now apply stopActiveCamera_no_camera.
Qed.

Lemma changeActiveCamera_built (h : list MediaStreamTrack) (render : State) (s : Sys)
    (id : string) (gum : Acquisition) :
  built_by_provider h render ->
  changeActiveCamera render id gum s
  = match activeCamera render with
    | Some c => (Thrown TypeError, record [CallLocalTrackStop c] s)
    | None => getCamera id gum s
    end.
Proof.
  intros [Hcam _]. destruct (activeCamera render) as [c|] eqn:Hc.
  - apply (changeActiveCamera_unwrapped render s c id gum Hc).
    apply (built_for_unwrapped video h), Hcam. reflexivity.
  - now apply changeActiveCamera_no_camera.
Qed.

Lemma changeActiveMicrophone_built (h : list MediaStreamTrack) (render : State)
    (s : Sys) (id : string) (gum : Acquisition) (webAudio : WebAudio) :
  built_by_provider h render ->
  changeActiveMicrophone render id gum webAudio s
  = match activeMicrophone render with
    | Some m => (Thrown TypeError, record [CallLocalTrackStop m] s)
    | None => getMicrophone id gum webAudio s
    end.
Proof.
  intros [_ [Hmic _]]. destruct (activeMicrophone render) as [m|] eqn:Hm.
  - apply (changeActiveMicrophone_unwrapped render s m id gum webAudio Hm).
    apply (built_for_unwrapped audio h), Hmic. reflexivity.
  - now apply changeActiveMicrophone_no_microphone.
Qed.

Lemma mute_built (h : list MediaStreamTrack) (render : State) (s : Sys) :
  built_by_provider h render ->
  muteActiveMicrophone render s
  = (match activeMicrophone render with
     | Some _ => Thrown TypeError
     | None => Returned tt
     end, s)
  /\ unMuteActiveMicrophone render s
     = (match activeMicrophone render with
        | Some _ => Thrown TypeError
        | None => Returned tt
        end, s).
Proof.
  intros [_ [Hmic _]]. unfold muteActiveMicrophone, unMuteActiveMicrophone.
  destruct (activeMicrophone render) as [m|] eqn:Hm; [|now split].
  assert (Hun : forall r, track m <> JsTrack r).
  { apply (built_for_unwrapped audio h), Hmic. reflexivity. }
  split; now apply assign_enabled_unwrapped.
Qed.

Lemma level_built (h : list MediaStreamTrack) (render : State) (s : Sys)
    (spectrum : list Byte.byte) :
  built_by_provider h render ->
  getActiveMicrophoneLevel render spectrum s = (Returned None, s).
Proof.
  intros [_ [_ Han]]. unfold getActiveMicrophoneLevel. rewrite Han.
  now destruct (activeMicrophone render).
Qed.

Lemma built_step (o : Op) (s : Sys) : provider_built s -> provider_built (step o s).
Proof.
  intros Hs.
  destruct o as [gum enum|mic cam gum webAudio|id gum|age|age id gum|id gum webAudio
                |age|age|age id gum webAudio|age spectrum]; cbn [step].
  - now apply built_populate.
  - now apply built_start.
  - now apply built_getCamera.
  - unfold run.
    rewrite (stopActiveCamera_built _ _ s (built_render_at age s Hs)).
    now destruct (activeCamera (render_at age s)).
  - pose proof (built_getCamera id gum s Hs) as Hget. unfold run in *.
    rewrite (changeActiveCamera_built _ _ s id gum (built_render_at age s Hs)).
    now destruct (activeCamera (render_at age s)).
  - now apply built_getMicrophone.
  - unfold run. now destruct (mute_built _ _ s (built_render_at age s Hs)) as [-> _].
  - unfold run. now destruct (mute_built _ _ s (built_render_at age s Hs)) as [_ ->].
  - pose proof (built_getMicrophone id gum webAudio s Hs) as Hget. unfold run in *.
    rewrite (changeActiveMicrophone_built _ _ s id gum webAudio
               (built_render_at age s Hs)).
    now destruct (activeMicrophone (render_at age s)).
  - unfold run. now rewrite (level_built _ _ s spectrum (built_render_at age s Hs)).
Qed.

Lemma built_steps (ops : list Op) (s : Sys) :
  provider_built s -> provider_built (steps ops s).
Proof.
  unfold steps. revert s.
  induction ops as [|o ops IH]; intros s Hs; cbn [fold_left]; [exact Hs|].
  apply IH, built_step, Hs.
Qed.

Lemma built_initial (supported : bool) : provider_built (initialSys supported).
Proof.
  split; [|constructor]. split; [|split]; [discriminate|discriminate|reflexivity].
Qed.

Lemma reachable_built (s : Sys) : reachable s -> provider_built s.
Proof. intros [supported [ops ->]]. apply built_steps, built_initial. Qed.

(** X14. In every state of the provider the handle in the camera slot is
    one that [requestPermissionAndStartDevices] built from a camera track
    that exists, and its [track] property is the string "video", not the
    track; likewise the handle in the microphone slot, whose [track]
    property is the string "audio". *)
Theorem slots_hold_kind_names (s : Sys) :
  reachable s ->
  (forall c, activeCamera (st s) = Some c ->
     exists r, c = camera_of r /\ track c = JsString "video"
               /\ kind_of (heap (world s)) r = Some video)
  /\ (forall m, activeMicrophone (st s) = Some m ->
        exists r, m = microphone_of r /\ track m = JsString "audio"
                  /\ kind_of (heap (world s)) r = Some audio).
Proof.
  intros [[Hcam [Hmic _]] _]%reachable_built. split.
  - intros c Hc. destruct (Hcam c Hc) as [r [-> Hk]]. exists r. now repeat split.
  - intros m Hm. destruct (Hmic m Hm) as [r [-> Hk]]. exists r. now repeat split.
Qed.

(** X16. No analyser is ever set up: in every state of the provider, and so
    in every render, [localAudioAnalyser] is undefined, whatever the Web
    Audio calls would have done, and [getActiveMicrophoneLevel] returns
    null through the callback of any render. *)
Theorem analyser_never_set_up (s : Sys) :
  reachable s ->
  localAudioAnalyser (st s) = None
  /\ forall age spectrum,
       localAudioAnalyser (render_at age s) = None
       /\ outcome (getActiveMicrophoneLevel (render_at age s) spectrum) s
          = Returned None.
Proof.
  intros Hs%reachable_built. split; [apply Hs|].
  intros age spectrum. pose proof (built_render_at age s Hs) as Hrender.
  split; [apply Hrender|].
  unfold outcome. now rewrite (level_built _ _ s spectrum Hrender).
Qed.

(** X1. In every state of the provider, through the callback of a render
    that has an active camera, [stopActiveCamera] and [changeActiveCamera]
    fail at [activeCamera.stop()]: they throw a [TypeError] after that one
    call, so the slot is not cleared, no acquisition is requested, and
    the state and the tracks are as they were. *)
Theorem camera_calls_fail_at_stop (s : Sys) (age : nat) (c : LocalTrack)
    (id : string) (gum : Acquisition) :
  reachable s ->
  activeCamera (render_at age s) = Some c ->
  stopActiveCamera (render_at age s) s
  = (Thrown TypeError, record [CallLocalTrackStop c] s)
  /\ changeActiveCamera (render_at age s) id gum s
     = (Thrown TypeError, record [CallLocalTrackStop c] s)
  /\ st (record [CallLocalTrackStop c] s) = st s
  /\ heap (world (record [CallLocalTrackStop c] s)) = heap (world s).
Proof.
  intros Hs%reachable_built Hc. pose proof (built_render_at age s Hs) as Hrender.
  rewrite (stopActiveCamera_built _ _ s Hrender).
  rewrite (changeActiveCamera_built _ _ s id gum Hrender).
  rewrite Hc. now repeat split.
Qed.

(** X2. In every state of the provider, through the callback of a render
    that has an active microphone, [changeActiveMicrophone] fails at
    [activeMicrophone.stop()]: it throws a [TypeError] after that one
    call, so no acquisition is requested, and the state and the tracks
    are as they were. *)
Theorem microphone_switch_fails_at_stop (s : Sys) (age : nat) (m : LocalTrack)
    (id : string) (gum : Acquisition) (webAudio : WebAudio) :
  reachable s ->
  activeMicrophone (render_at age s) = Some m ->
  changeActiveMicrophone (render_at age s) id gum webAudio s
  = (Thrown TypeError, record [CallLocalTrackStop m] s)
  /\ st (record [CallLocalTrackStop m] s) = st s
  /\ heap (world (record [CallLocalTrackStop m] s)) = heap (world s).
Proof.
  intros Hs%reachable_built Hm. pose proof (built_render_at age s Hs) as Hrender.
  rewrite (changeActiveMicrophone_built _ _ s id gum webAudio Hrender).
  rewrite Hm. now repeat split.
Qed.

(** X6. In every state of the provider muting and unmuting change nothing
    at all, through the callback of any render: with an active microphone
    in the render they throw a [TypeError] at the assignment, without one
    they return. *)
Theorem mute_unmute_change_nothing (s : Sys) (age : nat) :
  reachable s ->
  run (muteActiveMicrophone (render_at age s)) s = s
  /\ run (unMuteActiveMicrophone (render_at age s)) s = s
  /\ (is_Some (activeMicrophone (render_at age s)) ->
      outcome (muteActiveMicrophone (render_at age s)) s = Thrown TypeError
      /\ outcome (unMuteActiveMicrophone (render_at age s)) s = Thrown TypeError)
  /\ (activeMicrophone (render_at age s) = None ->
      outcome (muteActiveMicrophone (render_at age s)) s = Returned tt
      /\ outcome (unMuteActiveMicrophone (render_at age s)) s = Returned tt).
Proof.
  intros Hs%reachable_built.
  destruct (mute_built _ _ s (built_render_at age s Hs)) as [Hmute Hunmute].
  unfold run, outcome. rewrite Hmute, Hunmute. cbn [fst snd].
  split; [reflexivity|]. split; [reflexivity|]. split.
  - intros [m ->]. now split.
  - intros ->. now split.
Qed.

Lemma step_keeps_tracks (o : Op) (s : Sys) (r : TrackRef) (t : MediaStreamTrack) :
  provider_built s ->
  heap (world s) !! r = Some t -> heap (world (step o s)) !! r = Some t.
Proof.
  intros Hs Ht.
  assert (Hsdk : forall options kinds,
            heap (world (sdk_acquired options kinds s)) !! r = Some t).
  { intros options kinds. cbn. now apply lookup_app_l_Some. }
  destruct o as [gum enum|mic cam gum webAudio|id gum|age|age id gum|id gum webAudio
                |age|age|age id gum webAudio|age spectrum]; cbn [step].
  - now apply populate_keeps_tracks.
  - unfold run. destruct (mediaDevicesSupported (world s)) eqn:Hsup.
    + destruct gum as [e|kinds].
      * now rewrite (start_rejected s mic cam e webAudio Hsup).
      * fold (run (requestPermissionAndStartDevices mic cam (Resolved kinds) webAudio) s).
        rewrite (start_heap s mic cam kinds webAudio Hsup).
        now apply lookup_app_l_Some.
    + now rewrite (start_unsupported s mic cam gum webAudio Hsup).
  - unfold run. destruct gum as [e|kinds].
    + now rewrite getCamera_rejected.
    + rewrite getCamera_resolved. apply Hsdk.
  - unfold run.
    rewrite (stopActiveCamera_built _ _ s (built_render_at age s Hs)).
    now destruct (activeCamera (render_at age s)).
  - unfold run.
    rewrite (changeActiveCamera_built _ _ s id gum (built_render_at age s Hs)).
    destruct (activeCamera (render_at age s)); [exact Ht|].
    destruct gum as [e|kinds].
    + now rewrite getCamera_rejected.
    + rewrite getCamera_resolved. apply Hsdk.
  - unfold run. destruct gum as [e|kinds].
    + now rewrite getMicrophone_rejected.
    + rewrite getMicrophone_resolved. apply Hsdk.
  - unfold run. now destruct (mute_built _ _ s (built_render_at age s Hs)) as [-> _].
  - unfold run. now destruct (mute_built _ _ s (built_render_at age s Hs)) as [_ ->].
  - unfold run.
    rewrite (changeActiveMicrophone_built _ _ s id gum webAudio
               (built_render_at age s Hs)).
    destruct (activeMicrophone (render_at age s)); [exact Ht|].
    destruct gum as [e|kinds].
    + now rewrite getMicrophone_rejected.
    + rewrite getMicrophone_resolved. apply Hsdk.
  - unfold run. now rewrite (level_built _ _ s spectrum (built_render_at age s Hs)).
Qed.

(** X12. The provider never touches a track again once the call that
    acquired it is over: from any state of the provider and along any
    sequence of calls, through the callbacks of whatever renders, a track
    that exists stays exactly as it is, with its [readyState] and its
    [enabled] flag. So a track that was acquired for use is never
    stopped and never muted. *)
Theorem tracks_left_as_they_are (ops : list Op) (s : Sys) (r : TrackRef)
    (t : MediaStreamTrack) :
  reachable s ->
  heap (world s) !! r = Some t ->
  heap (world (steps ops s)) !! r = Some t.
Proof.
  intros Hs%reachable_built. unfold steps. revert s Hs.
  induction ops as [|o ops IH]; intros s Hs Ht; cbn [fold_left]; [exact Ht|].
  apply IH; [now apply built_step|now apply step_keeps_tracks].
Qed.

(** *** The theorems at work on example runs *)

Lemma reachable_one_camera : reachable one_camera.
Proof.
  exists true,
    [RequestPermissionAndStartDevices None None (Resolved [video]) AudioBuilt].
  reflexivity.
Qed.

Lemma reachable_started : reachable started.
Proof.
  exists true,
    [RequestPermissionAndStartDevices None None (Resolved [audio; video]) AudioBuilt].
  reflexivity.
Qed.


Lemma getActiveMicrophoneLevel_spec_witness :
  activeMicrophone metering = Some (microphone_of 0)
  /\ localAudioAnalyser metering = Some (analyser_of 0)
  /\ exists avg peak,
       outcome (getActiveMicrophoneLevel metering some_spectrum) started
       = Returned (Some {| avgDb := Finite avg; peakDb := Finite (inject_Z peak) |})
       /\ (avg == mean (map byte_value
                          (getByteFrequencyData
                             (Pos.to_nat default_frequencyBinCount) some_spectrum)))%Q
       /\ is_maximum peak
            (map byte_value
               (getByteFrequencyData
                  (Pos.to_nat default_frequencyBinCount) some_spectrum)).
Proof.
  split; [reflexivity|]. split; [reflexivity|].
  exact (proj2 (proj2 (proj2 (getActiveMicrophoneLevel_spec metering started
                                some_spectrum))
                 (microphone_of 0) (analyser_of 0) eq_refl eq_refl)).
Defined.

Lemma populate_devices_witness :
  mediaDevicesSupported (world fresh) = true
  /\ calls (requestPermissionAndPopulateDevices (Resolved [audio; video])
              (Enumerated some_devices)) fresh
     = [CallGetUserMedia defaultMicrophoneCameraOptions_init;
        CallTrackStop 0; CallTrackStop 1; CallEnumerateDevices;
        SetMicrophoneDevices
          [mkDevice "mic-1" audioinput "Microphone";
           mkDevice "mic-2" audioinput "Headset"];
        SetCameraDevices [mkDevice "cam-1" videoinput "Camera"]].
Proof.
  split; [reflexivity|].
  exact (proj1 (proj2 (populate_devices fresh [audio; video] some_devices eq_refl))).
Defined.

Lemma acquisition_failures_witness :
  mediaDevicesSupported (world fresh) = true
  /\ outcome (requestPermissionAndPopulateDevices (Rejected denied)
                (Enumerated some_devices)) fresh = Returned tt
  /\ userMediaError
       (st (run (requestPermissionAndPopulateDevices (Rejected denied)
                   (Enumerated some_devices)) fresh))
     = Some userMediaErrorMessage
  /\ negb (mediaDevicesSupported (world fresh)) || is_rejected (Rejected denied) = true
  /\ userMediaError
       (st (run (requestPermissionAndStartDevices None None (Rejected denied) AudioBuilt)
              fresh))
     = Some userMediaErrorMessage.
Proof.
  split; [reflexivity|].
  split; [exact (proj1 (proj1 (acquisition_failures fresh) (Rejected denied)
                          (Enumerated some_devices) eq_refl))|].
  split; [exact (proj2 (proj1 (acquisition_failures fresh) (Rejected denied)
                          (Enumerated some_devices) eq_refl))|].
  split; [reflexivity|].
  exact (proj1 (proj2 (proj1 (proj2 (acquisition_failures fresh))
                         None None (Rejected denied) AudioBuilt))
           eq_refl).
Defined.


Lemma acquiring_stops_nothing_witness :
  mediaDevicesSupported (world one_camera) = true
  /\ live_tracks video (heap (world (run second_start one_camera))) = [0; 1].
Proof.
  split; [reflexivity|].
  exact (proj2 (proj2 (acquiring_stops_nothing one_camera video [video]))
           None None AudioBuilt eq_refl).
Defined.

Lemma camera_never_installed_witness :
  activeCamera (st fresh) = None
  /\ changeActiveCamera (st fresh) "camera-1" (Resolved [video]) fresh
     = getCamera "camera-1" (Resolved [video]) fresh.
Proof.
  split; [reflexivity|].
  exact (proj2 (proj2 (proj2 (camera_never_installed fresh "camera-1")))
           (st fresh) (Resolved [video]) eq_refl).
Defined.

Lemma microphone_never_installed_witness :
  activeMicrophone (st fresh) = None
  /\ changeActiveMicrophone (st fresh) "mic-1" (Resolved [audio]) AudioBuilt fresh
     = getMicrophone "mic-1" (Resolved [audio]) AudioBuilt fresh.
Proof.
  split; [reflexivity|].
  exact (proj2 (proj2 (proj2 (microphone_never_installed fresh "mic-1" AudioBuilt)))
           (st fresh) (Resolved [audio]) eq_refl).
Defined.

Lemma populate_leaves_devices_witness :
  heap (world one_camera) !! 0 = Some (newTrack video)
  /\ heap (world (run (requestPermissionAndPopulateDevices (Resolved [audio; video])
                         (Enumerated some_devices)) one_camera)) !! 0
     = Some (newTrack video).
Proof.
  split; [reflexivity|].
  exact (proj1 (proj2 (proj2 (proj2 (proj2 (proj2
           (populate_leaves_devices one_camera (Resolved [audio; video])
              (Enumerated some_devices)))))))
           0 (newTrack video) eq_refl).
Defined.

Lemma level_within_bytes_witness :
  outcome (getActiveMicrophoneLevel metering some_spectrum) started
  = Returned (Some some_level)
  /\ exists avg peak,
       avgDb some_level = Finite avg /\ peakDb some_level = Finite (inject_Z peak)
       /\ (0 <= avg)%Q /\ (avg <= inject_Z peak)%Q /\ (peak <= 255)%Z.
Proof.
  split; [reflexivity|].
  exact (level_within_bytes metering started some_spectrum some_level eq_refl).
Defined.

Lemma start_devices_stick_witness :
  mediaDevicesSupported (world fresh) = true
  /\ truthy_id (Some "mic-1") = Some "mic-1"
  /\ opt_audio
       (defaultMicrophoneCameraOptions
          (world (run (requestPermissionAndStartDevices (Some "mic-1") None
                         (Rejected denied) AudioBuilt) fresh)))
     = Device "mic-1".
Proof.
  split; [reflexivity|]. split; [reflexivity|].
  exact (proj1 (start_devices_stick fresh (Some "mic-1") None (Rejected denied)
                  AudioBuilt eq_refl)
           "mic-1" eq_refl).
Defined.

Lemma start_stops_at_microphone_witness :
  mediaDevicesSupported (world fresh) = true
  /\ activeMicrophone (st started) = Some (microphone_of 0)
  /\ activeCamera (st started) = None
  /\ localAudioAnalyser (st started) = None
  /\ userMediaError (st started) = Some userMediaErrorMessage
  /\ heap (world started) = [newTrack audio; newTrack video].
Proof.
  split; [reflexivity|].
  pose proof (proj1 (start_stops_at_microphone fresh None None AudioBuilt 0 eq_refl)
                [video]) as H.
  exact (conj (proj1 (proj2 H))
           (conj (proj1 (proj2 (proj2 H)))
              (conj (proj1 (proj2 (proj2 (proj2 H))))
                 (conj (proj1 (proj2 (proj2 (proj2 (proj2 H)))))
                    (proj1 (proj2 (proj2 (proj2 (proj2 (proj2 H)))))))))).
Defined.

Lemma error_is_sticky_witness :
  userMediaError (st failed_once) = Some userMediaErrorMessage
  /\ userMediaError
       (st (steps [GetCamera "camera-1" (Resolved [video]);
                   RequestPermissionAndPopulateDevices (Resolved [audio; video])
                     (Enumerated some_devices)] failed_once))
     = Some userMediaErrorMessage.
Proof.
  split; [reflexivity|].
  exact (proj1 (error_is_sticky
                  [GetCamera "camera-1" (Resolved [video]);
                   RequestPermissionAndPopulateDevices (Resolved [audio; video])
                     (Enumerated some_devices)] failed_once)
           eq_refl).
Defined.

Lemma microphone_is_kept_witness :
  is_Some (activeMicrophone (st started))
  /\ is_Some
       (activeMicrophone
          (st (steps [ChangeActiveMicrophone 0 "mic-2" (Rejected denied) AudioBuilt;
                      StopActiveCamera 1] started))).
Proof.
  assert (Hheld : is_Some (activeMicrophone (st started)))
    by (exists (microphone_of 0); reflexivity).
  split; [exact Hheld|].
  exact (proj1 (microphone_is_kept
                  [ChangeActiveMicrophone 0 "mic-2" (Rejected denied) AudioBuilt;
                   StopActiveCamera 1] started)
           Hheld).
Defined.

Lemma device_lists_sorted_witness :
  reachable populated
  /\ Forall (fun device => device_kind device = audioinput)
       (microphoneDevices (st populated))
  /\ Forall (fun device => device_kind device = videoinput)
       (cameraDevices (st populated)).
Proof.
  assert (Hreach : reachable populated).
  { exists true,
      [RequestPermissionAndPopulateDevices (Resolved [audio; video])
         (Enumerated some_devices)].
    reflexivity. }
  split; [exact Hreach|].
  exact (device_lists_sorted populated Hreach).
Defined.

Lemma without_getUserMedia_witness :
  mediaDevicesSupported (world (initialSys false)) = false
  /\ outcome (requestPermissionAndPopulateDevices (Resolved [audio; video])
                (Enumerated some_devices)) (initialSys false)
     = Thrown TypeError
  /\ userMediaError
       (st (run (requestPermissionAndStartDevices None None (Resolved [audio; video])
                   AudioBuilt)
              (initialSys false)))
     = Some userMediaErrorMessage.
Proof.
  split; [reflexivity|].
  pose proof (without_getUserMedia (initialSys false) None None
                (Resolved [audio; video]) (Enumerated some_devices) AudioBuilt eq_refl)
    as H.
  exact (conj (proj1 H) (proj1 (proj2 (proj2 (proj2 (proj2 H)))))).
Defined.

Lemma slots_hold_kind_names_witness :
  reachable started
  /\ activeMicrophone (st started) = Some (microphone_of 0)
  /\ exists r, microphone_of 0 = microphone_of r
               /\ track (microphone_of 0) = JsString "audio"
               /\ kind_of (heap (world started)) r = Some audio.
Proof.
  split; [exact reachable_started|]. split; [reflexivity|].
  exact (proj2 (slots_hold_kind_names started reachable_started)
           (microphone_of 0) eq_refl).
Defined.

Lemma analyser_never_set_up_witness :
  reachable started
  /\ localAudioAnalyser (st started) = None
  /\ outcome (getActiveMicrophoneLevel (render_at 0 started) some_spectrum) started
     = Returned None.
Proof.
  split; [exact reachable_started|].
  pose proof (analyser_never_set_up started reachable_started) as H.
  exact (conj (proj1 H) (proj2 (proj2 H 0 some_spectrum))).
Defined.

Lemma camera_calls_fail_at_stop_witness :
  reachable one_camera
  /\ activeCamera (render_at 0 one_camera) = Some (camera_of 0)
  /\ changeActiveCamera (render_at 0 one_camera) "camera-2" (Resolved [video])
       one_camera
     = (Thrown TypeError, record [CallLocalTrackStop (camera_of 0)] one_camera).
Proof.
  split; [exact reachable_one_camera|]. split; [reflexivity|].
  exact (proj1 (proj2 (camera_calls_fail_at_stop one_camera 0 (camera_of 0)
                         "camera-2" (Resolved [video]) reachable_one_camera eq_refl))).
Defined.

Lemma microphone_switch_fails_at_stop_witness :
  reachable started
  /\ activeMicrophone (render_at 0 started) = Some (microphone_of 0)
  /\ changeActiveMicrophone (render_at 0 started) "mic-2" (Resolved [audio])
       AudioBuilt started
     = (Thrown TypeError, record [CallLocalTrackStop (microphone_of 0)] started).
Proof.
  split; [exact reachable_started|]. split; [reflexivity|].
  exact (proj1 (microphone_switch_fails_at_stop started 0 (microphone_of 0)
                  "mic-2" (Resolved [audio]) AudioBuilt reachable_started eq_refl)).
Defined.

Lemma mute_unmute_change_nothing_witness :
  reachable started
  /\ is_Some (activeMicrophone (render_at 0 started))
  /\ run (muteActiveMicrophone (render_at 0 started)) started = started
  /\ outcome (muteActiveMicrophone (render_at 0 started)) started = Thrown TypeError.
Proof.
  assert (Hheld : is_Some (activeMicrophone (render_at 0 started)))
    by (exists (microphone_of 0); reflexivity).
  split; [exact reachable_started|]. split; [exact Hheld|].
  pose proof (mute_unmute_change_nothing started 0 reachable_started) as H.
  exact (conj (proj1 H) (proj1 (proj1 (proj2 (proj2 H)) Hheld))).
Defined.

Lemma tracks_left_as_they_are_witness :
  reachable started
  /\ heap (world started) !! 0 = Some (newTrack audio)
  /\ heap (world (steps [MuteActiveMicrophone 0;
                         ChangeActiveMicrophone 0 "mic-2" (Resolved [audio]) AudioBuilt;
                         StopActiveCamera 0] started)) !! 0
     = Some (newTrack audio).
Proof.
  split; [exact reachable_started|]. split; [reflexivity|].
  exact (tracks_left_as_they_are
           [MuteActiveMicrophone 0;
            ChangeActiveMicrophone 0 "mic-2" (Resolved [audio]) AudioBuilt;
            StopActiveCamera 0] started 0 (newTrack audio) reachable_started eq_refl).
Defined.

End UserMediaFacts.

(** ** Properties of [GalleryLayout] *)

Module GalleryFacts.
Import Gallery.

(** *** React children *)

Lemma ReactNode_nested_ind (P : ReactNode -> Prop) :
  P RUndefined -> P RNull -> (forall b, P (RBoolean b)) -> (forall q, P (RNumber q)) ->
  (forall s, P (RString s)) -> (forall e, P (RElement e)) ->
  (forall items, Forall P items -> P (RArray items)) ->
  forall n, P n.
Proof.
  intros Hu Hn Hb Hq Hs He Ha. fix IH 1. intros [| |b|q|s|e|items].
  - exact Hu.
  - exact Hn.
  - apply Hb.
  - apply Hq.
  - apply Hs.
  - apply He.
  - apply Ha. induction items as [|x items IHitems]; constructor.
    + apply IH.
    + exact IHitems.
Qed.

Lemma leaves_array (items : list ReactNode) :
  leaves (RArray items) = flat_map leaves items.
Proof.
  cbn [leaves]. induction items as [|x items IH]; [reflexivity|].
  cbn [flat_map]. now rewrite IH.
Qed.

Lemma leaves_are_leaves (n : ReactNode) : Forall is_leaf (leaves n).
Proof.
  induction n as [| |b|q|s|e|items IH] using ReactNode_nested_ind;
    try (repeat constructor).
  rewrite leaves_array. induction IH as [|x items Hx _ IHitems]; cbn [flat_map].
  - constructor.
  - apply Forall_app. split; assumption.
Qed.

Lemma Children_map_ext (children : ReactNode) (f g : ReactNode -> ReactNode) :
  (forall child, is_leaf child -> child ∈ leaves children -> f child = g child) ->
  Children_map children f = Children_map children g.
Proof.
  intros Hfg. unfold Children_map. destruct (is_nullish children); [reflexivity|].
  f_equal. pose proof (leaves_are_leaves children) as Hleaves.
  induction (leaves children) as [|x l IH]; [reflexivity|].
  cbn [flat_map]. apply Forall_cons in Hleaves as [Hx Hl].
  rewrite (Hfg x Hx) by left. f_equal. apply IH; [|exact Hl].
  intros child Hleaf Hin. apply Hfg; [exact Hleaf|now right].
Qed.

(** Falsy children hold no element. *)
Lemma falsy_no_element (children : ReactNode) (child : ReactNode) :
  truthy children = false -> child ∈ leaves children -> isValidElement child = false.
Proof.
  destruct children; cbn; try discriminate;
    intros _ Hin%list_elem_of_singleton; now subst.
Qed.

Section Component.

Variable BestFit : Type.
Variable fit_width fit_height : BestFit -> Q.
Variable calcOptimalBoxes : CalcArgs -> option BestFit.

Abbreviation bestFit := (bestFit BestFit calcOptimalBoxes).
Abbreviation renderChild := (renderChild BestFit fit_width fit_height).
Abbreviation GalleryLayout := (GalleryLayout BestFit fit_width fit_height calcOptimalBoxes).

Lemma renderChild_not_element (fit : option BestFit) (child : ReactNode) :
  isValidElement child = false -> renderChild fit child = child.
Proof. now destruct child. Qed.

Lemma renderChild_fit (bf : BestFit) (child : ReactNode) :
  number_truthy (fit_width bf) = true -> number_truthy (fit_height bf) = true ->
  renderChild (Some bf) child = inject (fit_width bf) (fit_height bf) child.
Proof. intros Hw Hh. destruct child; cbn; try reflexivity. now rewrite Hw, Hh. Qed.

Lemma renderChild_no_fit (fit : option BestFit) (child : ReactNode) :
  (fit = None
   \/ exists bf, fit = Some bf
        /\ (number_truthy (fit_width bf) = false
            \/ number_truthy (fit_height bf) = false)) ->
  renderChild fit child = child.
Proof.
  intros [->|[bf [-> [H|H]]]]; destruct child; cbn; try reflexivity.
  - now rewrite H.
  - rewrite H. now destruct (number_truthy (fit_width bf)).
Qed.

(** C7, as the code has it. Where the children are truthy, the memoised
    computation makes one call to the helper, with exactly the given
    width, the given height, the number of children, the ratio 16/9 and
    the given gap, 10 where none is given, and keeps what the helper
    returns; where the children are falsy the helper is not called and
    there is no best fit. *)
Theorem bestFit_arguments (p : Props) :
  (truthy (children p) = true ->
   bestFit p
   = ([{| arg_width := width p; arg_height := height p;
          arg_n := Children_count (children p);
          arg_aspectRatio := 16 # 9;
          arg_gap := match gap p with Some g => g | None => 10%Q end |}],
      calcOptimalBoxes
        {| arg_width := width p; arg_height := height p;
           arg_n := Children_count (children p);
           arg_aspectRatio := 16 # 9;
           arg_gap := match gap p with Some g => g | None => 10%Q end |}))
  /\ (truthy (children p) = false -> bestFit p = ([], None)).
Proof.
  unfold Gallery.bestFit. split; intros ->; [|reflexivity].
  unfold calcArgs, gap_of, aspectRatio. now destruct (gap p).
Qed.

(** C4. Where the box computation on the component's arguments yields a
    result with nonzero width and height, the component renders its
    children with every valid element cloned with exactly that width and
    height, so every rendered element carries the same two dimensions;
    where it yields no result, or one with zero width or height, the
    children are rendered as they are. *)
Theorem GalleryLayout_injects (p : Props) :
  (forall bf,
     calcOptimalBoxes (calcArgs p) = Some bf ->
     number_truthy (fit_width bf) = true ->
     number_truthy (fit_height bf) = true ->
     GalleryLayout p
     = Children_map (children p) (inject (fit_width bf) (fit_height bf))
     /\ forall e, RElement e ∈ items_of (GalleryLayout p) ->
          props e !! "width" = Some (PNumber (fit_width bf))
          /\ props e !! "height" = Some (PNumber (fit_height bf)))
  /\ ((calcOptimalBoxes (calcArgs p) = None
       \/ exists bf, calcOptimalBoxes (calcArgs p) = Some bf
            /\ (number_truthy (fit_width bf) = false
                \/ number_truthy (fit_height bf) = false)) ->
      GalleryLayout p = Children_map (children p) (fun child => child)).
Proof.
  unfold Gallery.GalleryLayout, Gallery.bestFit.
  destruct (truthy (children p)) eqn:Htruthy; cbn [snd].
  - split.
    + intros bf -> Hw Hh.
      assert (Heq : Children_map (children p) (renderChild (Some bf))
                    = Children_map (children p)
                        (inject (fit_width bf) (fit_height bf))).
      { apply Children_map_ext. intros child _ _. now apply renderChild_fit. }
      split; [exact Heq|]. rewrite Heq. clear Heq.
      unfold Children_map. destruct (is_nullish (children p)) eqn:Hnull.
      { destruct (children p); try discriminate; intros e He; cbn in He;
          now apply not_elem_of_nil in He. }
      cbn [items_of]. intros e He.
      apply list_elem_of_In, in_flat_map in He as [child [Hchild He]].
      apply list_elem_of_In in Hchild, He.
      pose proof (leaves_are_leaves (children p)) as Hleaves.
      rewrite Forall_forall in Hleaves. specialize (Hleaves child Hchild).
      destruct child; cbn in He, Hleaves; try contradiction;
        try (now apply not_elem_of_nil in He);
        apply list_elem_of_singleton in He; try discriminate.
      injection He as ->. cbn. split.
      * rewrite lookup_insert_ne by discriminate. apply lookup_insert_eq.
      * apply lookup_insert_eq.
    + intros Hno. apply Children_map_ext. intros child _ _.
      now apply renderChild_no_fit.
  - split.
    + intros bf _ Hw Hh.
      assert (Heq : Children_map (children p) (renderChild None)
                    = Children_map (children p)
                        (inject (fit_width bf) (fit_height bf))).
      { apply Children_map_ext. intros child _ Hin.
        pose proof (falsy_no_element _ _ Htruthy Hin) as Hnot.
        now destruct child. }
      split; [exact Heq|].
      destruct (children p); try discriminate; cbn;
        intros e He; try (now apply not_elem_of_nil in He);
        try (apply list_elem_of_singleton in He; discriminate).
    + intros _. apply Children_map_ext. intros child _ _.
      now apply renderChild_no_fit; left.
Qed.

End Component.

(** *** The box computation *)












(** *** The theorems at work on example props *)

Lemma bestFit_arguments_witness :
  truthy (children three_children) = true
  /\ bestFit Box fixed_fit three_children
     = ([{| arg_width := 1280; arg_height := 720; arg_n := 3;
            arg_aspectRatio := 16 # 9; arg_gap := 10 |}],
        Some fixed_box).
Proof.
  split; [reflexivity|].
  exact (proj1 (bestFit_arguments Box fixed_fit three_children) eq_refl).
Defined.

Lemma GalleryLayout_injects_witness :
  fixed_fit (calcArgs three_children) = Some fixed_box
  /\ number_truthy (box_width fixed_box) = true
  /\ number_truthy (box_height fixed_box) = true
  /\ GalleryLayout Box box_width box_height fixed_fit three_children
     = Children_map (children three_children) (inject 630 354).
Proof.
  split; [reflexivity|]. split; [reflexivity|]. split; [reflexivity|].
  exact (proj1 (proj1 (GalleryLayout_injects Box box_width box_height fixed_fit
                         three_children)
                  fixed_box eq_refl eq_refl eq_refl)).
Defined.



(** C7 as stated fails where the children are falsy: with [null] for
    children the memoised computation makes no call to the helper, so
    nothing is passed to it, and there is no best fit. *)
Lemma bestFit_without_children :
  bestFit Box fixed_fit no_children = ([], None).
Proof. reflexivity. Qed.

(** *** What the component renders, child by child *)

Lemma collect_leaf (child : ReactNode) :
  is_leaf child -> collect child = if is_nullish child then [] else [child].
Proof. now destruct child. Qed.

Lemma same_but_size_refl (child : ReactNode) : same_but_size child child.
Proof. destruct child; cbn; try reflexivity. now split. Qed.

Lemma same_but_size_clone (e : Element) (w h : Q) :
  same_but_size (RElement e) (RElement (cloneElement e w h)).
Proof.
  cbn. split; [reflexivity|]. intros key Hw Hh.
  rewrite lookup_insert_ne by congruence. now rewrite lookup_insert_ne by congruence.
Qed.

Lemma filter_nullish_length (l : list ReactNode) :
  length (List.filter (fun child => negb (is_nullish child)) l)
  + length (List.filter is_nullish l)
  = length l.
Proof.
  induction l as [|x l IH]; [reflexivity|].
  cbn [List.filter]. destruct (is_nullish x); cbn [negb length]; lia.
Qed.

Section Rendering.

Variable BestFit : Type.
Variable fit_width fit_height : BestFit -> Q.
Variable calcOptimalBoxes : CalcArgs -> option BestFit.

Abbreviation renderChild := (renderChild BestFit fit_width fit_height).
Abbreviation GalleryLayout :=
  (GalleryLayout BestFit fit_width fit_height calcOptimalBoxes).

Lemma renderChild_same (fit : option BestFit) (child : ReactNode) :
  same_but_size child (renderChild fit child).
Proof.
  destruct child; try apply same_but_size_refl.
  unfold Gallery.renderChild. destruct fit as [bf|]; [|apply same_but_size_refl].
  destruct (number_truthy (fit_width bf) && number_truthy (fit_height bf));
    [apply same_but_size_clone|apply same_but_size_refl].
Qed.

Lemma renderChild_leaf (fit : option BestFit) (child : ReactNode) :
  is_leaf child ->
  is_leaf (renderChild fit child)
  /\ is_nullish (renderChild fit child) = is_nullish child.
Proof.
  intros Hleaf. destruct child; try (now split).
  unfold Gallery.renderChild. destruct fit as [bf|]; [|now split].
  now destruct (number_truthy (fit_width bf) && number_truthy (fit_height bf)).
Qed.

Lemma rendered_items (fit : option BestFit) (l : list ReactNode) :
  Forall is_leaf l ->
  flat_map (fun child => collect (renderChild fit child)) l
  = map (renderChild fit) (List.filter (fun child => negb (is_nullish child)) l).
Proof.
  induction 1 as [|x l Hx _ IH]; [reflexivity|].
  cbn [flat_map List.filter]. rewrite IH.
  destruct (renderChild_leaf fit x Hx) as [Hleaf Hnull].
  rewrite (collect_leaf _ Hleaf), Hnull.
  now destruct (is_nullish x).
Qed.

Lemma GalleryLayout_items (p : Props) :
  is_nullish (children p) = false ->
  items_of (GalleryLayout p)
  = map (renderChild (snd (bestFit BestFit calcOptimalBoxes p)))
      (rendered_leaves (children p)).
Proof.
  intros Hnull. unfold Gallery.GalleryLayout, Children_map. rewrite Hnull.
  cbn [items_of]. apply rendered_items, leaves_are_leaves.
Qed.

(** X18. The component adds, drops and reorders nothing: whatever the box
    computation returns, it renders the children that are not null one for
    one in their order, a text or a number as it is, and an element with
    its type and all of its props but the width and the height. Children
    that are null or undefined as a whole are handed back as they are. *)
Theorem GalleryLayout_keeps_children (p : Props) :
  (is_nullish (children p) = false ->
   Forall2 same_but_size (rendered_leaves (children p)) (items_of (GalleryLayout p)))
  /\ (is_nullish (children p) = true -> GalleryLayout p = children p).
Proof.
  split.
  - intros Hnull. rewrite (GalleryLayout_items p Hnull).
    induction (rendered_leaves (children p)) as [|x l IH]; constructor.
    + apply renderChild_same.
    + exact IH.
  - intros Hnull. unfold Gallery.GalleryLayout, Children_map. now rewrite Hnull.
Qed.

(** X19. The count of the children is the number of rendered children plus
    the number of null, undefined and boolean ones. So whenever the
    memoised computation calls the helper, the number of boxes it asks for
    is at least the number of children the component renders. With falsy
    children the helper is not called at all, also where a child is
    rendered, as for the number 0 and the empty string. *)
Theorem count_covers_rendered (p : Props) :
  Children_count (children p)
  = length (items_of (GalleryLayout p)) + empty_children (children p)
  /\ (forall a, a ∈ fst (bestFit BestFit calcOptimalBoxes p) ->
        length (items_of (GalleryLayout p)) <= arg_n a)
  /\ (truthy (children p) = false ->
      fst (bestFit BestFit calcOptimalBoxes p) = []
      /\ length (items_of (GalleryLayout p))
         = if is_nullish (children p) then 0
           else match children p with RBoolean _ => 0 | _ => 1 end).
Proof.
  assert (Hcount : Children_count (children p)
                   = length (items_of (GalleryLayout p)) + empty_children (children p)).
  { unfold Children_count, empty_children.
    destruct (is_nullish (children p)) eqn:Hnull.
    - unfold Gallery.GalleryLayout, Children_map. rewrite Hnull.
      now destruct (children p).
    - rewrite (GalleryLayout_items p Hnull), length_map.
      unfold rendered_leaves. now rewrite filter_nullish_length. }
  split; [exact Hcount|]. split.
  - intros a Ha. unfold bestFit in Ha.
    destruct (truthy (children p)); cbn [fst] in Ha.
    + apply list_elem_of_singleton in Ha. subst a. cbn [calcArgs arg_n]. lia.
    + now apply not_elem_of_nil in Ha.
  - intros Hfalsy. unfold bestFit. rewrite Hfalsy. split; [reflexivity|].
    destruct (is_nullish (children p)) eqn:Hnull.
    + unfold Gallery.GalleryLayout, Children_map. rewrite Hnull.
      now destruct (children p).
    + rewrite (GalleryLayout_items p Hnull), length_map.
      destruct (children p); try discriminate; reflexivity.
Qed.

End Rendering.

(** *** The further theorems at work on example props *)

Lemma GalleryLayout_keeps_children_witness :
  is_nullish (children three_children) = false
  /\ Forall2 same_but_size (rendered_leaves (children three_children))
       (items_of (GalleryLayout Box box_width box_height fixed_fit three_children)).
Proof.
  split; [reflexivity|].
  exact (proj1 (GalleryLayout_keeps_children Box box_width box_height fixed_fit
                  three_children) eq_refl).
Defined.

Lemma count_covers_rendered_witness :
  calcArgs three_children ∈ fst (bestFit Box fixed_fit three_children)
  /\ length (items_of (GalleryLayout Box box_width box_height fixed_fit three_children))
     <= arg_n (calcArgs three_children)
  /\ truthy (children zero_child) = false
  /\ fst (bestFit Box fixed_fit zero_child) = []
  /\ length (items_of (GalleryLayout Box box_width box_height fixed_fit zero_child)) = 1.
Proof.
  assert (Hin : calcArgs three_children ∈ fst (bestFit Box fixed_fit three_children))
    by (left).
  split; [exact Hin|].
  split; [exact (proj1 (proj2 (count_covers_rendered Box box_width box_height
                                 fixed_fit three_children))
                   (calcArgs three_children) Hin)|].
  split; [reflexivity|].
  exact (proj2 (proj2 (count_covers_rendered Box box_width box_height fixed_fit
                         zero_child))
           eq_refl).
Defined.

End GalleryFacts.
